(** * agent-smart-memo: slot store, graph store, auto-capture and auto-recall

    Shallow embedding of the TypeScript sources of agent-smart-memo
    (src/db/slot-db.ts, src/db/graph-db.ts, src/hooks/auto-capture.ts,
    src/hooks/auto-recall.ts, src/services/llm-extractor.ts,
    src/services/embedding.ts).

    SQLite tables are lists of rows in rowid order; a statement that violates
    a PRIMARY KEY or UNIQUE constraint fails as a whole ([None]) and leaves
    the table unchanged.  Timestamps are the ISO-8601 strings produced by
    [new Date().toISOString()]; both the SQL ([expires_at < ?]) and the
    TypeScript ([newTs > existingTs]) compare them as text, so they are
    compared here with the lexicographic order of [String.compare]. *)

From Stdlib Require Import String Ascii List ZArith QArith Bool Lia Sorted.
Import ListNotations.
Close Scope Q_scope.
Open Scope string_scope.
Set Warnings "-register-all".

(* ------------------------------------------------------------------------ *)
(** ** Text helpers *)

Definition timestamp := string.

(** [a < b] on TEXT values (BINARY collation) and on JS strings. *)
Definition ts_lt (a b : timestamp) : bool := String.ltb a b.

(** JS truthiness of an optional string: [undefined] and [""] are falsy. *)
Definition js_str_or (o : option string) (d : string) : string :=
  match o with
  | Some s => if String.eqb s "" then d else s
  | None => d
  end.

(** [key.split(".")[0]] *)
Fixpoint first_segment (s : string) : string :=
  match s with
  | EmptyString => EmptyString
  | String c r => if Ascii.eqb c "."%char then EmptyString else String c (first_segment r)
  end.

(** [s.startsWith(p)] *)
Definition starts_with (p s : string) : bool := String.prefix p s.

(** Lower-casing of ASCII letters, as SQLite's LIKE does for ASCII. *)
Definition ascii_lower (c : ascii) : ascii :=
  let n := nat_of_ascii c in
  if ((65 <=? n) && (n <=? 90))%nat then ascii_of_nat (n + 32)%nat else c.

(** SQLite [s LIKE p] (no ESCAPE clause): [%] matches any sequence, [_] any
    single character, other characters compare case-insensitively (ASCII). *)
Fixpoint like (p s : list ascii) : bool :=
  match p with
  | [] => match s with [] => true | _ => false end
  | c :: p' =>
      if Ascii.eqb c "%"%char then
        (fix go (t : list ascii) : bool :=
           like p' t || match t with [] => false | _ :: t' => go t' end) s
      else
        match s with
        | [] => false
        | d :: s' =>
            (Ascii.eqb c "_"%char || Ascii.eqb (ascii_lower c) (ascii_lower d))
            && like p' s'
        end
  end.

(** Insertion sort used for the SQL [ORDER BY] clauses. *)
Section Sort.
  Variable A : Type.
  Variable le : A -> A -> bool.

Fixpoint insert_by (x : A) (l : list A) : list A :=
    match l with
    | [] => [x]
    | y :: l' => if le x y then x :: l else y :: insert_by x l'
    end.

Fixpoint sort_by (l : list A) : list A :=
    match l with
    | [] => []
    | x :: l' => insert_by x (sort_by l')
    end.

End Sort.
Arguments insert_by {A} le x l.
Arguments sort_by {A} le l.

(** Lexicographic [ORDER BY a ASC, b ASC] on string columns. *)
Definition lex2_le (a1 b1 a2 b2 : string) : bool :=
  match String.compare a1 a2 with
  | Lt => true
  | Gt => false
  | Eq => String.leb b1 b2
  end.

(* ------------------------------------------------------------------------ *)
(** ** SlotDB (src/db/slot-db.ts) *)

Module SlotDB.

  (** [SlotRow]; [value] is the JSON text written by [JSON.stringify]. *)
Record SlotRow := mkSlotRow {
    id : string;
    scope_user_id : string;
    scope_agent_id : string;
    category : string;
    key : string;
    value : string;
    source : string;
    confidence : Q;
    version : Z;
    created_at : timestamp;
    updated_at : timestamp;
    expires_at : option timestamp
  }.

  (** The [slots] table. *)
Definition table := list SlotRow.

  (** [SlotSetInput]; [value] is [JSON.stringify(input.value)]. *)
Record SlotSetInput := mkSlotSetInput {
    in_key : string;
    in_value : string;
    in_category : option string;
    in_source : option string;
    in_confidence : option Q;
    in_expires_at : option string
  }.

Definition in_scope (u a : string) (r : SlotRow) : bool :=
    String.eqb (scope_user_id r) u && String.eqb (scope_agent_id r) a.

  (** The triple the [set] lookup uses: [(scope_user_id, scope_agent_id, key)]. *)
Definition skey (r : SlotRow) : string * string * string :=
    (scope_user_id r, scope_agent_id r, key r).

  (** The UNIQUE constraint columns [(scope_user_id, scope_agent_id, category, key)]. *)
Definition ukey (r : SlotRow) : string * string * string * string :=
    (scope_user_id r, scope_agent_id r, category r, key r).

Definition ukey_eqb (x y : string * string * string * string) : bool :=
    match x, y with
    | (a1, b1, c1, d1), (a2, b2, c2, d2) =>
        String.eqb a1 a2 && String.eqb b1 b2 && String.eqb c1 c2 && String.eqb d1 d2
    end.

  (** [inferCategory] *)
Definition inferCategory (k : string) : string :=
    let prefix := first_segment k in
    if existsb (String.eqb prefix) ["profile"; "preferences"; "project"; "environment"]
    then prefix else "custom".

  (** [input.expires_at || null] *)
Definition expires_of (inp : SlotSetInput) : option timestamp :=
    match in_expires_at inp with
    | Some e => if String.eqb e "" then None else Some e
    | None => None
    end.

  (** [UPDATE slots SET ... WHERE id = ?]: the row with that id is rewritten;
      the statement fails if the new row clashes on the UNIQUE columns with
      another row. *)
Definition update_row (db : table) (r' : SlotRow) : option table :=
    if existsb (fun r => negb (String.eqb (id r) (id r')) && ukey_eqb (ukey r) (ukey r')) db
    then None
    else Some (map (fun r => if String.eqb (id r) (id r') then r' else r) db).

  (** [INSERT INTO slots ...]: fails on a PRIMARY KEY or UNIQUE clash. *)
Definition insert_row (db : table) (r' : SlotRow) : option table :=
    if existsb (fun r => String.eqb (id r) (id r') || ukey_eqb (ukey r) (ukey r')) db
    then None
    else Some (db ++ [r'])%list.

  (** [SELECT * FROM slots WHERE scope_user_id = ? AND scope_agent_id = ? AND key = ?]
      with [.get]: the first matching row. *)
Definition select_key (db : table) (u a k : string) : option SlotRow :=
    find (fun r => in_scope u a r && String.eqb (key r) k) db.

  (** [SlotDB.set].  [now] is [new Date().toISOString()] and [now_ms] the
      decimal text of [Date.now()] used in the generated id. *)
Definition set (db : table) (u a : string) (inp : SlotSetInput)
      (now : timestamp) (now_ms : string) : option (table * SlotRow) :=
    let cat := js_str_or (in_category inp) (inferCategory (in_key inp)) in
    let src := js_str_or (in_source inp) "tool" in
    let conf := match in_confidence inp with Some c => c | None => 1%Q end in
    match select_key db u a (in_key inp) with
    | Some existing =>
        let r' := {| id := id existing;
                     scope_user_id := scope_user_id existing;
                     scope_agent_id := scope_agent_id existing;
                     category := cat;
                     key := key existing;
                     value := in_value inp;
                     source := src;
                     confidence := conf;
                     version := (version existing + 1)%Z;
                     created_at := created_at existing;
                     updated_at := now;
                     expires_at := expires_of inp |} in
        match update_row db r' with
        | Some db' => Some (db', r')
        | None => None
        end
    | None =>
        let r' := {| id := cat ++ ":" ++ in_key inp ++ ":" ++ now_ms;
                     scope_user_id := u;
                     scope_agent_id := a;
                     category := cat;
                     key := in_key inp;
                     value := in_value inp;
                     source := src;
                     confidence := conf;
                     version := 1%Z;
                     created_at := now;
                     updated_at := now;
                     expires_at := expires_of inp |} in
        match insert_row db r' with
        | Some db' => Some (db', r')
        | None => None
        end
    end.

  (** [SlotDB.delete]: the new table and [result.changes > 0]. *)
Definition delete (db : table) (u a k : string) : table * bool :=
    let keep := filter (fun r => negb (in_scope u a r && String.eqb (key r) k)) db in
    (keep, Nat.ltb (length keep) (length db)).

Definition expired_at (now : timestamp) (r : SlotRow) : bool :=
    match expires_at r with
    | Some e => ts_lt e now
    | None => false
    end.

  (** [SlotDB.cleanExpired] *)
Definition cleanExpired (db : table) (u a : string) (now : timestamp) : table :=
    filter (fun r => negb (in_scope u a r && expired_at now r)) db.

Definition by_key (r1 r2 : SlotRow) : bool := String.leb (key r1) (key r2).
Definition by_cat_key (r1 r2 : SlotRow) : bool :=
    lex2_le (category r1) (key r1) (category r2) (key r2).

  (** [SlotGetInput] *)
Record SlotGetInput := mkSlotGetInput { g_key : option string; g_category : option string }.

Inductive GetResult :=
  | GOne (r : option SlotRow)
  | GMany (rs : list SlotRow).

  (** [SlotDB.get] *)
Definition get (db : table) (u a : string) (inp : SlotGetInput) (now : timestamp)
      : table * GetResult :=
    let db := cleanExpired db u a now in
    match g_key inp with
    | Some k => if String.eqb k "" then
                  match g_category inp with
                  | Some c => if String.eqb c "" then
                                (db, GMany (sort_by by_cat_key (filter (in_scope u a) db)))
                              else
                                (db, GMany (sort_by by_key
                                   (filter (fun r => in_scope u a r && String.eqb (category r) c) db)))
                  | None => (db, GMany (sort_by by_cat_key (filter (in_scope u a) db)))
                  end
                else (db, GOne (select_key db u a k))
    | None =>
        match g_category inp with
        | Some c => if String.eqb c "" then
                      (db, GMany (sort_by by_cat_key (filter (in_scope u a) db)))
                    else
                      (db, GMany (sort_by by_key
                         (filter (fun r => in_scope u a r && String.eqb (category r) c) db)))
        | None => (db, GMany (sort_by by_cat_key (filter (in_scope u a) db)))
        end
    end.

  (** A JS object used as a string-keyed record: an association list in
      property-insertion order; assigning an existing property keeps its
      position. *)
Fixpoint obj_set {V : Type} (o : list (string * V)) (k : string) (v : V)
      : list (string * V) :=
    match o with
    | [] => [(k, v)]
    | (k', v') :: o' => if String.eqb k k' then (k, v) :: o' else (k', v') :: obj_set o' k v
    end.

Fixpoint obj_get {V : Type} (o : list (string * V)) (k : string) : option V :=
    match o with
    | [] => None
    | (k', v') :: o' => if String.eqb k k' then Some v' else obj_get o' k
    end.

  (** [Record<string, Record<string, unknown>>] *)
Definition state := list (string * list (string * string)%type)%type.

  (** The body of the loop [for (const row of rows) { ... }]: the category's
      sub-object is created on first use, then [state[cat][key] = value]. *)
Definition state_add (st : state) (r : SlotRow) : state :=
    let sub := match obj_get st (category r) with Some m => m | None => [] end in
    obj_set st (category r) (obj_set sub (key r) (value r)).

Definition state_of_rows (rows : list SlotRow) : state :=
    fold_left state_add rows [].

  (** [SlotListInput] *)
Record SlotListInput := mkSlotListInput { l_category : option string; l_prefix : option string }.

Definition list_filter (inp : SlotListInput) (r : SlotRow) : bool :=
    (match l_category inp with
     | Some c => if String.eqb c "" then true else String.eqb (category r) c
     | None => true
     end) &&
    (match l_prefix inp with
     | Some p => if String.eqb p "" then true
                 else like (list_ascii_of_string (p ++ "%")) (list_ascii_of_string (key r))
     | None => true
     end).

  (** [SlotDB.list] *)
Definition list (db : table) (u a : string) (inp : SlotListInput) (now : timestamp)
      : table * list SlotRow :=
    let db := cleanExpired db u a now in
    (db, sort_by by_cat_key (filter (fun r => in_scope u a r && list_filter inp r) db)).

  (** [SlotDB.getCurrentState] *)
Definition getCurrentState (db : table) (u a : string) (now : timestamp) : table * state :=
    let db := cleanExpired db u a now in
    (db, state_of_rows (sort_by by_cat_key (filter (in_scope u a) db))).

  (** [SlotDB.count] *)
Definition count (db : table) (u a : string) : nat :=
    length (filter (in_scope u a) db).

  (** Every operation of the SlotDB class that touches the table. *)
Inductive Op :=
  | OpSet (u a : string) (inp : SlotSetInput) (now : timestamp) (now_ms : string)
  | OpGet (u a : string) (inp : SlotGetInput) (now : timestamp)
  | OpList (u a : string) (inp : SlotListInput) (now : timestamp)
  | OpDelete (u a k : string)
  | OpCurrentState (u a : string) (now : timestamp)
  | OpCount (u a : string).

  (** A failing statement throws and leaves the table as it was. *)
Definition step (db : table) (op : Op) : table :=
    match op with
    | OpSet u a inp now ms => match set db u a inp now ms with
                              | Some (db', _) => db'
                              | None => db
                              end
    | OpGet u a inp now => fst (get db u a inp now)
    | OpList u a inp now => fst (list db u a inp now)
    | OpDelete u a k => fst (delete db u a k)
    | OpCurrentState u a now => fst (getCurrentState db u a now)
    | OpCount _ _ => db
    end.

Definition run_ops (db : table) (ops : Datatypes.list Op) : table := fold_left step ops db.

End SlotDB.

(* ======================================================================== *)
(** * AutoRecall: the Current State merge of [gatherRecallContext] *)

Module AutoRecall.
Import SlotDB.
Local Open Scope list_scope.

(** The scopes queried, in order: private, team, public. *)
Definition scopes (userId agentId : string) : Datatypes.list (string * string) :=
  [(userId, agentId); (userId, "__team__"); ("__public__", "__public__")].

(** [for (const s of slots) tsMap[s.key] = s.updated_at;] *)
Definition ts_map (slots : Datatypes.list SlotRow) : Datatypes.list (string * timestamp) :=
  fold_left (fun m s => obj_set m (key s) (updated_at s)) slots [].

(** [o[category]] for a sub-object that is known to exist. *)
Definition sub (o : state) (category : string) : Datatypes.list (string * string) :=
  match obj_get o category with Some m => m | None => [] end.

(** [!existingTs || newTs > existingTs] *)
Definition keeps_new (existingTs : option timestamp) (newTs : timestamp) : bool :=
  match existingTs with
  | None => true
  | Some t => String.eqb t "" || ts_lt t newTs
  end.

(** Body of [for (const [key, value] of Object.entries(catSlots))]; the
    accumulator is [(mergedState, mergedTimestamps)]. *)
Definition merge_key (tsMap : Datatypes.list (string * timestamp)) (category : string)
    (acc : state * state) (kv : string * string) : state * state :=
  let '(mergedState, mergedTimestamps) := acc in
  let '(k, v) := kv in
  if starts_with "_" k then acc
  else
    let existingTs := obj_get (sub mergedTimestamps category) k in
    let newTs := js_str_or (obj_get tsMap k) "" in
    if keeps_new existingTs newTs then
      (obj_set mergedState category (obj_set (sub mergedState category) k v),
       obj_set mergedTimestamps category (obj_set (sub mergedTimestamps category) k newTs))
    else acc.

(** Body of [for (const [category, catSlots] of Object.entries(state))]. *)
Definition merge_category (tsMap : Datatypes.list (string * timestamp))
    (acc : state * state) (cs : string * Datatypes.list (string * string)) : state * state :=
  let '(category, catSlots) := cs in
  let acc :=
    let '(mergedState, mergedTimestamps) := acc in
    match obj_get mergedState category with
    | None => (obj_set mergedState category [], obj_set mergedTimestamps category [])
    | Some _ => acc
    end in
  fold_left (merge_key tsMap category) catSlots acc.

(** Body of [for (const scope of scopes)]: [getCurrentState], then [list],
    both with the clock reading [now]. The table is threaded through, since
    both reads delete the scope's expired rows. *)
Definition merge_scope (now : timestamp) (st : table * (state * state)) (scope : string * string)
    : table * (state * state) :=
  let '(db, acc) := st in
  let '(u, a) := scope in
  let '(db, state) := getCurrentState db u a now in
  let '(db, slots) := list db u a (mkSlotListInput None None) now in
  let tsMap := ts_map slots in
  (db, fold_left (merge_category tsMap) state acc).

(** The Current State part of [gatherRecallContext]: the final table and
    [mergedState] (which [formatCurrentState] renders). *)
Definition gatherCurrentState (db : table) (userId agentId : string) (now : timestamp)
    : table * state :=
  let '(db, (mergedState, _)) := fold_left (merge_scope now) (scopes userId agentId) (db, ([], [])) in
  (db, mergedState).

End AutoRecall.

(* ======================================================================== *)
(** * GraphDB: entities and relationships (src/src/db/graph-db.ts) *)

Module GraphDB.
Local Open Scope list_scope.

(** [EntityRow]; [properties] is the JSON text. *)
Record EntityRow := mkEntityRow {
  e_id : string;
  e_name : string;
  e_type : string;
  e_properties : string;
  e_scope_user_id : string;
  e_scope_agent_id : string;
  e_created_at : timestamp;
  e_updated_at : timestamp
}.

(** [RelationshipRow], also the shape of the returned [Relationship]. *)
Record RelationshipRow := mkRelationshipRow {
  r_id : string;
  source_entity_id : string;
  target_entity_id : string;
  relation_type : string;
  weight : Q;
  r_properties : string;
  r_scope_user_id : string;
  r_scope_agent_id : string;
  r_created_at : timestamp
}.

(** [RelationshipCreateInput]; [rc_properties] is the JSON text of
    [input.properties] when it is given. *)
Record RelationshipCreateInput := mkRelationshipCreateInput {
  rc_source_entity_id : string;
  rc_target_entity_id : string;
  rc_relation_type : string;
  rc_weight : option Q;
  rc_properties : option string
}.

(** The tables [entities] and [relationships], in rowid order. *)
Record graph := mkGraph {
  entities : Datatypes.list EntityRow;
  relationships : Datatypes.list RelationshipRow
}.

Definition entity_in_scope (u a : string) (e : EntityRow) : bool :=
  String.eqb (e_scope_user_id e) u && String.eqb (e_scope_agent_id e) a.

Definition rel_in_scope (u a : string) (r : RelationshipRow) : bool :=
  String.eqb (r_scope_user_id r) u && String.eqb (r_scope_agent_id r) a.

(** [GraphDB.deleteEntity]: the two DELETE statements, then
    [result.changes > 0] of the second. *)
Definition deleteEntity (g : graph) (scopeUserId scopeAgentId id : string) : graph * bool :=
  let rels := filter (fun r => negb ((String.eqb (source_entity_id r) id ||
                                      String.eqb (target_entity_id r) id) &&
                                     rel_in_scope scopeUserId scopeAgentId r))
                     (relationships g) in
  let ents := filter (fun e => negb (String.eqb (e_id e) id &&
                                     entity_in_scope scopeUserId scopeAgentId e))
                     (entities g) in
  (mkGraph ents rels, Nat.ltb (length ents) (length (entities g))).

(** The columns of [UNIQUE(source_entity_id, target_entity_id, relation_type)]. *)
Definition triple (r : RelationshipRow) : string * string * string :=
  (source_entity_id r, target_entity_id r, relation_type r).

Definition same_triple (inp : RelationshipCreateInput) (r : RelationshipRow) : bool :=
  String.eqb (source_entity_id r) (rc_source_entity_id inp) &&
  String.eqb (target_entity_id r) (rc_target_entity_id inp) &&
  String.eqb (relation_type r) (rc_relation_type inp).

(** [GraphDB.createRelationship]; [uuid] is the value drawn by
    [generateUUID()]. The INSERT ... ON CONFLICT(triple) DO UPDATE either
    rewrites [weight], [properties] and [created_at] of the row holding the
    triple (the conflict target), or appends the new row, where a generated
    id equal to a stored one violates the primary key and the statement
    fails. *)
Definition createRelationship (rels : Datatypes.list RelationshipRow)
    (scopeUserId scopeAgentId : string) (input : RelationshipCreateInput)
    (now : timestamp) (uuid : string)
    : option (Datatypes.list RelationshipRow * RelationshipRow) :=
  let id := uuid in
  let w := match rc_weight input with Some w => w | None => 1%Q end in
  let propertiesJson := match rc_properties input with Some p => p | None => "{}" end in
  let row := mkRelationshipRow id (rc_source_entity_id input) (rc_target_entity_id input)
               (rc_relation_type input) w propertiesJson scopeUserId scopeAgentId now in
  if existsb (same_triple input) rels then
    Some (map (fun r => if same_triple input r then
                          mkRelationshipRow (r_id r) (source_entity_id r) (target_entity_id r)
                            (relation_type r) w propertiesJson
                            (r_scope_user_id r) (r_scope_agent_id r) now
                        else r) rels, row)
  else if existsb (fun r => String.eqb (r_id r) id) rels then None
  else Some (rels ++ [row], row).

(** [EntityCreateInput]; [ec_properties] is the JSON text of
    [input.properties] when it is given. *)
Record EntityCreateInput := mkEntityCreateInput {
  ec_name : string;
  ec_type : string;
  ec_properties : option string
}.

(** [GraphDB.createEntity]; [uuid] is the value drawn by [generateUUID()].
    The INSERT fails (the call throws) when the id is already stored. The
    returned [Entity] has the fields of the new row. *)
Definition createEntity (ents : Datatypes.list EntityRow) (scopeUserId scopeAgentId : string)
    (input : EntityCreateInput) (now : timestamp) (uuid : string)
    : option (Datatypes.list EntityRow * EntityRow) :=
  let id := uuid in
  let propertiesJson := match ec_properties input with Some p => p | None => "{}" end in
  let row := mkEntityRow id (ec_name input) (ec_type input) propertiesJson
               scopeUserId scopeAgentId now now in
  if existsb (fun e => String.eqb (e_id e) id) ents then None
  else Some (ents ++ [row], row).

(** [GraphDB.getEntity]: [SELECT * FROM entities WHERE id = ? AND scope ...]
    with [.get]; [rowToEntity] keeps the row, with its properties as text. *)
Definition getEntity (ents : Datatypes.list EntityRow) (scopeUserId scopeAgentId id : string)
    : option EntityRow :=
  find (fun e => String.eqb (e_id e) id && entity_in_scope scopeUserId scopeAgentId e) ents.

(** [EntityFilter] *)
Record EntityFilter := mkEntityFilter { f_type : option string; f_name : option string }.

(** [ORDER BY updated_at DESC] *)
Definition by_updated_desc (x y : EntityRow) : bool := String.leb (e_updated_at y) (e_updated_at x).

(** [GraphDB.listEntities] *)
Definition listEntities (ents : Datatypes.list EntityRow) (scopeUserId scopeAgentId : string)
    (filter_ : option EntityFilter) : Datatypes.list EntityRow :=
  let type_ok e := match filter_ with
                   | Some f => match f_type f with
                               | Some t => if String.eqb t "" then true else String.eqb (e_type e) t
                               | None => true
                               end
                   | None => true
                   end in
  let name_ok e := match filter_ with
                   | Some f => match f_name f with
                               | Some n => if String.eqb n "" then true
                                           else like (list_ascii_of_string ("%" ++ n ++ "%"))
                                                     (list_ascii_of_string (e_name e))
                               | None => true
                               end
                   | None => true
                   end in
  sort_by by_updated_desc
    (filter (fun e => entity_in_scope scopeUserId scopeAgentId e && type_ok e && name_ok e) ents).

(** [Partial<EntityCreateInput>]: [None] is an absent field. *)
Record EntityUpdate := mkEntityUpdate {
  up_name : option string;
  up_type : option string;
  up_properties : option string
}.

(** [GraphDB.updateEntity]: [null] when the entity is not found in the
    scope; otherwise the UPDATE rewrites name, type, properties and
    [updated_at] of the matching row, and the returned entity is the
    existing one with these fields replaced. *)
Definition updateEntity (ents : Datatypes.list EntityRow) (scopeUserId scopeAgentId id : string)
    (updates : EntityUpdate) (now : timestamp) : Datatypes.list EntityRow * option EntityRow :=
  match getEntity ents scopeUserId scopeAgentId id with
  | None => (ents, None)
  | Some existing =>
      let name := match up_name updates with Some n => n | None => e_name existing end in
      let type := match up_type updates with Some t => t | None => e_type existing end in
      let propertiesJson := match up_properties updates with
                            | Some p => p | None => e_properties existing end in
      (map (fun e => if String.eqb (e_id e) id && entity_in_scope scopeUserId scopeAgentId e
                     then mkEntityRow (e_id e) name type propertiesJson (e_scope_user_id e)
                            (e_scope_agent_id e) (e_created_at e) now
                     else e) ents,
       Some (mkEntityRow (e_id existing) name type propertiesJson (e_scope_user_id existing)
               (e_scope_agent_id existing) (e_created_at existing) now))
  end.

(** [GraphDB.getRelationship] *)
Definition getRelationship (rels : Datatypes.list RelationshipRow) (scopeUserId scopeAgentId id : string)
    : option RelationshipRow :=
  find (fun r => String.eqb (r_id r) id && rel_in_scope scopeUserId scopeAgentId r) rels.

(** [RelationDirection] *)
Inductive RelationDirection := Outgoing | Incoming | Both.

(** [ORDER BY weight DESC] *)
Definition by_weight_desc (x y : RelationshipRow) : bool := Qle_bool (weight y) (weight x).

(** [GraphDB.getRelationships] *)
Definition getRelationships (rels : Datatypes.list RelationshipRow) (scopeUserId scopeAgentId entityId : string)
    (direction : RelationDirection) : Datatypes.list RelationshipRow :=
  let matches r := match direction with
                   | Outgoing => String.eqb (source_entity_id r) entityId
                   | Incoming => String.eqb (target_entity_id r) entityId
                   | Both => String.eqb (source_entity_id r) entityId ||
                             String.eqb (target_entity_id r) entityId
                   end in
  sort_by by_weight_desc (filter (fun r => rel_in_scope scopeUserId scopeAgentId r && matches r) rels).

(** [GraphDB.deleteRelationship]: the new table and [result.changes > 0]. *)
Definition deleteRelationship (rels : Datatypes.list RelationshipRow) (scopeUserId scopeAgentId id : string)
    : Datatypes.list RelationshipRow * bool :=
  let keep := filter (fun r => negb (String.eqb (r_id r) id && rel_in_scope scopeUserId scopeAgentId r)) rels in
  (keep, Nat.ltb (length keep) (length rels)).

(** The state of [traverseGraph]: the maps [entities] and [relationships]
    (JS [Map]s, as association lists in insertion order) and the set
    [visited] (in insertion order). *)
Record TraverseState := mkTraverseState {
  t_entities : Datatypes.list (string * EntityRow);
  t_relationships : Datatypes.list (string * RelationshipRow);
  t_visited : Datatypes.list string
}.

(** One iteration of [for (const rel of rels)]: [relationships.set] and the
    push of [otherId] onto [nextLevel] when it is not visited. *)
Definition visit_rel (entityId : string) (visited : Datatypes.list string)
    (acc : Datatypes.list (string * RelationshipRow) * Datatypes.list string)
    (rel : RelationshipRow) : Datatypes.list (string * RelationshipRow) * Datatypes.list string :=
  let '(rmap, nextLevel) := acc in
  let rmap' := SlotDB.obj_set rmap (r_id rel) rel in
  let otherId := if String.eqb (source_entity_id rel) entityId
                 then target_entity_id rel else source_entity_id rel in
  (rmap', if existsb (String.eqb otherId) visited then nextLevel else nextLevel ++ [otherId]).

(** One iteration of [for (const entityId of currentLevel)]. *)
Definition visit_entity (g : graph) (scopeUserId scopeAgentId : string)
    (acc : TraverseState * Datatypes.list string) (entityId : string)
    : TraverseState * Datatypes.list string :=
  let '(st, nextLevel) := acc in
  if existsb (String.eqb entityId) (t_visited st) then (st, nextLevel)
  else
    let visited := t_visited st ++ [entityId] in
    match getEntity (entities g) scopeUserId scopeAgentId entityId with
    | None => (mkTraverseState (t_entities st) (t_relationships st) visited, nextLevel)
    | Some entity =>
        let emap := SlotDB.obj_set (t_entities st) entityId entity in
        let rels := getRelationships (relationships g) scopeUserId scopeAgentId entityId Both in
        let '(rmap, nextLevel') :=
          fold_left (visit_rel entityId visited) rels (t_relationships st, nextLevel) in
        (mkTraverseState emap rmap visited, nextLevel')
    end.

(** The loop [for (depth = 0; depth < maxDepth && currentLevel.length > 0; depth++)];
    [fuel] is the number of depths left. *)
Fixpoint traverse_levels (g : graph) (scopeUserId scopeAgentId : string) (fuel : nat)
    (st : TraverseState) (currentLevel : Datatypes.list string) : TraverseState :=
  match fuel with
  | O => st
  | S fuel' =>
      match currentLevel with
      | [] => st
      | _ :: _ =>
          let '(st', nextLevel) :=
            fold_left (visit_entity g scopeUserId scopeAgentId) currentLevel (st, []) in
          traverse_levels g scopeUserId scopeAgentId fuel' st' nextLevel
      end
  end.

(** [GraphDB.traverseGraph] for an integer [maxDepth] (default 2): the
    values of the two maps. *)
Definition traverseGraph (g : graph) (scopeUserId scopeAgentId startEntityId : string)
    (maxDepth : Z) : Datatypes.list EntityRow * Datatypes.list RelationshipRow :=
  let st := traverse_levels g scopeUserId scopeAgentId (Z.to_nat maxDepth)
              (mkTraverseState [] [] []) [startEntityId] in
  (map snd (t_entities st), map snd (t_relationships st)).

(** A base-16 digit of [Number.prototype.toString(16)]. *)
Definition digit16 (n : nat) : ascii :=
  ascii_of_nat (if (n <? 10)%nat then 48 + n else 87 + n)%nat.

Fixpoint hex_of_nat (fuel n : nat) : string :=
  match fuel with
  | O => ""
  | S f => (if (n <? 16)%nat then "" else hex_of_nat f (n / 16)) ++ String (digit16 (n mod 16)) ""
  end.

(** [v.toString(16)] of an integer [v]. *)
Definition toString16 (v : Z) : string :=
  if (v <? 0)%Z then "-" ++ hex_of_nat (S (Z.to_nat (- v))) (Z.to_nat (- v))
  else hex_of_nat (S (Z.to_nat v)) (Z.to_nat v).

Definition uuid_template : string := "xxxxxxxx-xxxx-4xxx-yxxx-xxxxxxxxxxxx".

(** [template.replace(/[xy]/g, callback)]: [rand n] is the value of
    [Math.random() * 16 | 0] at the [n]-th call of the callback. *)
Fixpoint uuid_fill (t : string) (rand : nat -> Z) (n : nat) : string :=
  match t with
  | EmptyString => EmptyString
  | String c t' =>
      if Ascii.eqb c "x"%char || Ascii.eqb c "y"%char then
        let r := rand n in
        let v := if Ascii.eqb c "x"%char then r else Z.lor (Z.land r 3) 8 in
        toString16 v ++ uuid_fill t' rand (S n)
      else String c (uuid_fill t' rand n)
  end.

(** [GraphDB.generateUUID] *)
Definition generateUUID (rand : nat -> Z) : string := uuid_fill uuid_template rand 0.

End GraphDB.

(* ======================================================================== *)
(** * AutoCapture: message text (src/src/hooks/auto-capture.ts) *)

Module Capture.

(** JSON-serialisable JS values. A number is held as its JS text
    ([String(n)], which [JSON.stringify] also prints for finite numbers);
    an object as its own properties in enumeration order. Characters are
    8-bit. *)
Inductive json :=
  | JNull
  | JBool (b : bool)
  | JNum (text : string)
  | JStr (s : string)
  | JArr (items : Datatypes.list json)
  | JObj (props : Datatypes.list (string * json)).

Fixpoint assoc (ps : Datatypes.list (string * json)) (k : string) : option json :=
  match ps with
  | [] => None
  | (k', v) :: ps' => if String.eqb k k' then Some v else assoc ps' k
  end.

(** [v?.[k]] *)
Definition prop (v : json) (k : string) : option json :=
  match v with JObj ps => assoc ps k | _ => None end.

(** [typeof v?.[k] === "string" ? v[k] : undefined] *)
Definition prop_str (v : json) (k : string) : option string :=
  match prop v k with Some (JStr s) => Some s | _ => None end.

(** [v?.type === t] *)
Definition type_is (v : json) (t : string) : bool :=
  match prop_str v "type" with Some s => String.eqb s t | None => false end.

(** JS truthiness; [String(-0)] is ["0"] as well. *)
Definition js_truthy (v : json) : bool :=
  match v with
  | JNull => false
  | JBool b => b
  | JNum t => negb (String.eqb t "0")
  | JStr s => negb (String.eqb s "")
  | JArr _ | JObj _ => true
  end.

(** [x || d] for a property that may be absent. *)
Definition js_or (o : option json) (d : json) : json :=
  match o with Some v => if js_truthy v then v else d | None => d end.

(** [String(v)]: arrays are joined with commas ([null] elements give the
    empty string), plain objects print ["[object Object]"]. *)
Fixpoint js_String (v : json) : string :=
  match v with
  | JNull => "null"
  | JBool true => "true"
  | JBool false => "false"
  | JNum t => t
  | JStr s => s
  | JArr items => String.concat "," (map (fun e => match e with
                                                 | JNull => ""
                                                 | _ => js_String e
                                                 end) items)
  | JObj _ => "[object Object]"
  end.

Definition dq : ascii := "034"%char.
Definition bs : ascii := "092"%char.

Definition hex_digit (n : nat) : ascii :=
  ascii_of_nat (if (n <? 10)%nat then 48 + n else 87 + n)%nat.

(** The escaping of a string by [JSON.stringify]. *)
Definition escape_char (c : ascii) : string :=
  let n := nat_of_ascii c in
  if Ascii.eqb c dq then String bs (String dq EmptyString)
  else if Ascii.eqb c bs then String bs (String bs EmptyString)
  else if (n =? 8)%nat then String bs "b"
  else if (n =? 9)%nat then String bs "t"
  else if (n =? 10)%nat then String bs "n"
  else if (n =? 12)%nat then String bs "f"
  else if (n =? 13)%nat then String bs "r"
  else if (n <? 32)%nat then
    String bs ("u00" ++ String (hex_digit (n / 16)) (String (hex_digit (n mod 16)) EmptyString))
  else String c EmptyString.

Fixpoint escape (s : string) : string :=
  match s with
  | EmptyString => EmptyString
  | String c r => escape_char c ++ escape r
  end.

Definition quote (s : string) : string := String dq (escape s ++ String dq EmptyString).

(** [JSON.stringify(v)] *)
Fixpoint stringify (v : json) : string :=
  match v with
  | JNull => "null"
  | JBool true => "true"
  | JBool false => "false"
  | JNum t => t
  | JStr s => quote s
  | JArr items => "[" ++ String.concat "," (map stringify items) ++ "]"
  | JObj ps => "{" ++ String.concat "," (map (fun kv => quote (fst kv) ++ ":" ++ stringify (snd kv)) ps)
               ++ "}"
  end.

(** The callback of [content.map((block) => ...)]; the [catch] branches are
    unreachable for JSON values. *)
Definition block_text (block : json) : string :=
  match (if type_is block "text" then prop_str block "text" else None) with
  | Some t => t
  | None =>
      if type_is block "tool_use" then
        "[Tool: " ++ js_String (js_or (prop block "name") (JStr "unknown")) ++ "]"
      else if type_is block "tool_result" then "[Tool Result]"
      else if type_is block "image" || type_is block "image_url" then "[Image]"
      else match prop_str block "text" with
           | Some t => t
           | None =>
               match prop_str block "content" with
               | Some t => t
               | None =>
                   match block with
                   | JArr _ | JObj _ => stringify block
                   | _ => js_String block
                   end
               end
           end
  end.

(** The array case: [content.map(...).join(" ")]. *)
Definition blocks_text (items : Datatypes.list json) : string :=
  String.concat " " (map block_text items).

(** [extractMessageText] on a JSON value. *)
Definition extractMessageText (content : json) : string :=
  match content with
  | JStr s => s
  | JArr items => blocks_text items
  | JObj ps =>
      match assoc ps "text" with
      | Some (JStr s) => s
      | Some v => stringify v
      | None =>
          match assoc ps "content" with
          | Some (JStr s) => s
          | Some (JArr items) => blocks_text items
          | Some v => stringify v
          | None => stringify content
          end
      end
  | JNull => ""
  | JBool _ | JNum _ => js_String content
  end.

(** [s.includes(p)] *)
Fixpoint contains (p s : string) : bool :=
  String.prefix p s || match s with EmptyString => false | String _ r => contains p r end.

End Capture.

(* ------------------------------------------------------------------------ *)
(** ** Context-window selection (src/hooks/auto-capture.ts) *)

Module Budget.
  Import Capture.
  Local Open Scope Z_scope.

(** [content] is typed [string] but holds whatever the host sends. *)
Record ConversationMessage := mkConversationMessage {
  role : string;
  content : json
}.

(** Numbers of the configuration; the divisor is taken positive (the only
    caller passes the default [4]). *)
Record ContextWindowConfig := mkContextWindowConfig {
  maxConversationTokens : Z;
  tokenEstimateDivisor : positive;
  absoluteMaxMessages : Z
}.

Definition DEFAULT_CONTEXT_WINDOW : ContextWindowConfig :=
  mkContextWindowConfig 12000 4 200.

(** [Math.ceil(text.length / divisor)] *)
Definition estimateTokens (text : string) (divisor : positive) : Z :=
  (Z.of_nat (String.length text) + Z.pos divisor - 1) / Z.pos divisor.

(** [arr.slice(start)]: a negative start counts from the end. *)
Definition slice {A} (l : Datatypes.list A) (start : Z) : Datatypes.list A :=
  let len := Z.of_nat (length l) in
  skipn (Z.to_nat (if start <? 0 then Z.max (len + start) 0 else Z.min start len)) l.

Definition is_conversation (m : ConversationMessage) : bool :=
  String.eqb (role m) "user" || String.eqb (role m) "assistant".

Definition msgTokens (config : ContextWindowConfig) (msg : ConversationMessage) : Z :=
  estimateTokens (role msg ++ ": " ++ extractMessageText (content msg))
                 (tokenEstimateDivisor config).

(** The loop [for (i = capped.length - 1; i >= 0; i--)], over the messages
    newest first, with [selected] and [tokenCount]. *)
Fixpoint accumulate (config : ContextWindowConfig) (newest_first : Datatypes.list ConversationMessage)
    (selected : Datatypes.list ConversationMessage) (tokenCount : Z)
    : Datatypes.list ConversationMessage * Z :=
  match newest_first with
  | [] => (selected, tokenCount)
  | msg :: older =>
      let t := msgTokens config msg in
      if tokenCount + t >? maxConversationTokens config then (selected, tokenCount)
      else accumulate config older (msg :: selected) (tokenCount + t)
  end.

(** [selectMessagesWithinBudget]: the selection and [stats.estimatedTokens]. *)
Definition selectMessagesWithinBudget (messages : Datatypes.list ConversationMessage)
    (config : ContextWindowConfig) : Datatypes.list ConversationMessage * Z :=
  let filtered := filter is_conversation messages in
  let capped := if Z.of_nat (length filtered) >? absoluteMaxMessages config
                then slice filtered (- absoluteMaxMessages config)
                else filtered in
  accumulate config (rev capped) [] 0.

(** The estimated token sum of a selection. *)
Definition total_tokens (config : ContextWindowConfig) (l : Datatypes.list ConversationMessage) : Z :=
  fold_right (fun m acc => msgTokens config m + acc) 0 l.

End Budget.

(* ------------------------------------------------------------------------ *)
(** ** AutoCapture slot writes (src/hooks/auto-capture.ts,
    src/services/llm-extractor.ts) *)

Module AutoCapture.
  Import SlotDB Capture.

  (** An element of [slot_updates] in the model's JSON reply. *)
Record SlotUpdate := mkSlotUpdate {
  u_key : string;
  u_value : json;
  u_confidence : Q;
  u_category : string
}.

  (** An element of [slot_removals] in the model's JSON reply. *)
Record SlotRemoval := mkSlotRemoval { rm_key : string; rm_reason : string }.

  (** The parsed JSON object of the model's reply; [memories] go to Qdrant
      and are left out. *)
Record LLMReply := mkLLMReply {
  reply_slot_updates : Datatypes.list SlotUpdate;
  reply_slot_removals : Datatypes.list SlotRemoval
}.

  (** [ExtractionResult] of llm-extractor.ts: it has no [slot_removals]. *)
Record ExtractionResult := mkExtractionResult { slot_updates : Datatypes.list SlotUpdate }.

  (** The end of [extractWithLLM] once the reply is parsed:
      [(result.slot_updates || []).filter((s) => s.confidence >= 0.7)]. *)
Definition extractWithLLM (result : LLMReply) : ExtractionResult :=
  mkExtractionResult (filter (fun s => Qle_bool (7 # 10) (u_confidence s)) (reply_slot_updates result)).

  (** The loop [for (const fact of extracted.slot_updates)] of the
      [agent_end] handler: facts below [minConfidence] are skipped, the
      others go to [db.set]; a failing [set] is caught and skipped. One
      clock reading serves the whole loop. *)
Fixpoint storeSlots (db : table) (userId agentId : string) (minConfidence : Q)
    (facts : Datatypes.list SlotUpdate) (now : timestamp) (now_ms : string) : table :=
  match facts with
  | [] => db
  | fact :: rest =>
      if negb (Qle_bool minConfidence (u_confidence fact)) then
        storeSlots db userId agentId minConfidence rest now now_ms
      else
        match set db userId agentId
                (mkSlotSetInput (u_key fact) (stringify (u_value fact)) (Some (u_category fact))
                   (Some "auto_capture") (Some (u_confidence fact)) None) now now_ms with
        | Some (db', _) => storeSlots db' userId agentId minConfidence rest now now_ms
        | None => storeSlots db userId agentId minConfidence rest now now_ms
        end
  end.

  (** The slot writes of the [agent_end] handler for one extraction. *)
Definition agent_end_slots (db : table) (userId agentId : string) (minConfidence : Q)
    (extracted : ExtractionResult) (now : timestamp) (now_ms : string) : table :=
  storeSlots db userId agentId minConfidence (slot_updates extracted) now now_ms.

End AutoCapture.

(* ------------------------------------------------------------------------ *)
(** ** Embedding client (src/services/embedding.ts) *)

Module Embedding.
  Import Capture.

  (** How the [fetch] of [embed] ends: a response with [response.ok], its
      status and [response.json()] ([None] when the body is not JSON), the
      abort of the timeout, or another rejection. *)
Inductive FetchOutcome :=
  | Response (ok : bool) (status : Z) (body : option json)
  | Aborted
  | NetworkError (message : string).

  (** The errors [embed] rejects with. *)
Inductive EmbedError :=
  | ApiError (status : Z)
  | InvalidFormat
  | TimedOut
  | Rethrown (message : string).

  (** [EmbeddingClient.embed]: [inl] is a rejection, [inr] the returned
      [data.embedding]. *)
Definition embed (outcome : FetchOutcome) : EmbedError + Datatypes.list json :=
  match outcome with
  | Aborted => inl TimedOut
  | NetworkError m => inl (Rethrown m)
  | Response ok status body =>
      if negb ok then inl (ApiError status)
      else match body with
           | None => inl (Rethrown "SyntaxError")
           | Some JNull => inl (Rethrown "TypeError")
           | Some data =>
               match prop data "embedding" with
               | Some (JArr xs) => inr xs
               | _ => inl InvalidFormat
               end
           end
  end.

End Embedding.

(* ------------------------------------------------------------------------ *)
(** ** Prompt injection of the recall context (src/hooks/auto-recall.ts) *)

Module RecallPrompt.
Import Capture.

(** ["\n"] *)
Definition nl : string := String (ascii_of_nat 10) EmptyString.

(** [key.includes(".") ? key.split(".").slice(1).join(".") : key]: the key
    after its first dot. *)
Fixpoint after_first_dot (k : string) : string :=
  match k with
  | EmptyString => EmptyString
  | String c r => if Ascii.eqb c "."%char then r else after_first_dot r
  end.

Definition displayKey (key : string) : string :=
  if contains "." key then after_first_dot key else key.

(** [typeof value === "object" ? JSON.stringify(value) : String(value)];
    [typeof null] is ["object"]. *)
Definition displayValue (value : json) : string :=
  match value with
  | JNull | JArr _ | JObj _ => stringify value
  | _ => js_String value
  end.

(** [displayValue.length > 100 ? displayValue.substring(0, 100) + "..." : displayValue] *)
Definition truncate100 (s : string) : string :=
  if (100 <? String.length s)%nat then substring 0 100 s ++ "..." else s.

(** The state handed to [formatCurrentState]: the parsed values of
    [Record<string, Record<string, unknown>>], in [Object.entries] order. *)
Definition recall_state := Datatypes.list (string * Datatypes.list (string * json)).

(** The inner loop of [formatCurrentState]. *)
Definition format_slots (xml : string) (slots : Datatypes.list (string * json)) : string :=
  fold_left (fun xml kv =>
               let '(key, value) := kv in
               if starts_with "_" key then xml
               else
                 let dk := displayKey key in
                 xml ++ "    <" ++ dk ++ ">" ++ truncate100 (displayValue value) ++ "</" ++ dk ++ ">" ++ nl)
            slots xml.

(** [formatCurrentState] *)
Definition formatCurrentState (state : recall_state) : string :=
  match state with
  | [] => ""
  | _ =>
      fold_left (fun xml cs =>
                   let '(category, slots) := cs in
                   format_slots (xml ++ "  <" ++ category ++ ">" ++ nl) slots
                     ++ "  </" ++ category ++ ">" ++ nl)
                state ("<current-state>" ++ nl)
        ++ "</current-state>"
  end.

(** The entity and relationship views passed to [formatGraphContext]. *)
Record EntityView := mkEntityView { ev_name : string; ev_type : string }.
Record RelView := mkRelView { rv_source : string; rv_target : string; rv_type : string }.

(** [formatGraphContext] *)
Definition formatGraphContext (entities : Datatypes.list EntityView)
    (relationships : Datatypes.list RelView) : string :=
  match entities with
  | [] => ""
  | _ =>
      let xml := "<knowledge-graph>" ++ nl ++ "  <entities>" ++ nl in
      let xml := fold_left (fun xml e =>
                   xml ++ "    <entity name=" ++ String dq (ev_name e) ++ String dq " type="
                       ++ String dq (ev_type e) ++ String dq "/>" ++ nl)
                   (firstn 10 entities) xml in
      let xml := xml ++ "  </entities>" ++ nl in
      let xml := match relationships with
                 | [] => xml
                 | _ =>
                     let xml := xml ++ "  <relationships>" ++ nl in
                     let xml := fold_left (fun xml r =>
                                  xml ++ "    <rel>" ++ rv_source r ++ " --[" ++ rv_type r ++ "]--> "
                                      ++ rv_target r ++ "</rel>" ++ nl)
                                  (firstn 8 relationships) xml in
                     xml ++ "  </relationships>" ++ nl
                 end in
      xml ++ "</knowledge-graph>"
  end.

(** GetSubstitution of [String.prototype.replace] for a string pattern (no
    capture groups): [$$], [$&], [$`] and [$'] are replaced, every other
    character is kept. [matched] is the matched text, [pre] and [post] the
    text before and after it. *)
Fixpoint get_substitution (matched pre post replacement : string) : string :=
  match replacement with
  | EmptyString => EmptyString
  | String c r =>
      if Ascii.eqb c "$"%char then
        match r with
        | String d r' =>
            if Ascii.eqb d "$"%char then String "$"%char (get_substitution matched pre post r')
            else if Ascii.eqb d "&"%char then matched ++ get_substitution matched pre post r'
            else if Ascii.eqb d "`"%char then pre ++ get_substitution matched pre post r'
            else if Ascii.eqb d "'"%char then post ++ get_substitution matched pre post r'
            else String c (get_substitution matched pre post r)
        | EmptyString => String c EmptyString
        end
      else String c (get_substitution matched pre post r)
  end.

(** [s.indexOf(pat)], as the text before and after the first occurrence. *)
Fixpoint split_first (pat s : string) {struct s} : option (string * string) :=
  if String.prefix pat s
  then Some (EmptyString, substring (String.length pat) (String.length s - String.length pat) s)
  else match s with
       | EmptyString => None
       | String c r => match split_first pat r with
                       | Some (b, a) => Some (String c b, a)
                       | None => None
                       end
       end.

(** [s.replace(pat, replacement)] with a string [pat]: the first occurrence
    only. *)
Definition js_replace (s pat replacement : string) : string :=
  match split_first pat s with
  | None => s
  | Some (pre, post) => pre ++ get_substitution pat pre post replacement ++ post
  end.

(** The [context] argument of [injectRecallContext]. *)
Record RecallParts := mkRecallParts {
  currentState : string;
  graphContext : string;
  recentUpdates : string;
  semanticMemories : string
}.

(** [injectionParts]: the truthy (non-empty) parts, in order. *)
Definition injectionParts (context : RecallParts) : Datatypes.list string :=
  (if String.eqb (currentState context) "" then [] else [currentState context]) ++
  (if String.eqb (graphContext context) "" then [] else [graphContext context]) ++
  (if String.eqb (recentUpdates context) "" then [] else [recentUpdates context]) ++
  (if String.eqb (semanticMemories context) "" then [] else [semanticMemories context]).

(** [injection] *)
Definition recall_injection (parts : Datatypes.list string) : string :=
  "<!-- Auto-Injected Context -->" ++ nl ++ String.concat (nl ++ nl) parts ++ nl
    ++ "<!-- End Auto-Injected Context -->" ++ nl ++ nl.

(** [injectRecallContext] *)
Definition injectRecallContext (systemPrompt : string) (context : RecallParts) : string :=
  match injectionParts context with
  | [] => systemPrompt
  | parts =>
      let injection := recall_injection parts in
      if contains "<system>" systemPrompt
      then js_replace systemPrompt "</system>" ("</system>" ++ nl ++ nl ++ injection)
      else injection ++ systemPrompt
  end.

End RecallPrompt.

(* ------------------------------------------------------------------------ *)
(** ** The slot filter of the extraction prompt (src/services/embedding.ts) *)

Module ExtractorPrompt.
Import SlotDB Capture.

(** The loop of [buildUserPrompt] that builds [filteredSlots] from
    [currentSlots] (objects as their entries in enumeration order):
    [_autocapture] keys are skipped and a category left empty is not
    copied. *)
Definition filteredSlots (currentSlots : Datatypes.list (string * Datatypes.list (string * json)))
    : Datatypes.list (string * Datatypes.list (string * json)) :=
  fold_left (fun filteredSlots cs =>
               let '(cat, slots) := cs in
               let filtered :=
                 fold_left (fun filtered kv =>
                              let '(key, value) := kv in
                              if starts_with "_autocapture" key then filtered
                              else obj_set filtered key value)
                           slots [] in
               if (0 <? length filtered)%nat then obj_set filteredSlots cat filtered
               else filteredSlots)
            currentSlots [].

End ExtractorPrompt.

(* ------------------------------------------------------------------------ *)
(** ** Scope of a session key (src/tools/slot-tools.ts, src/hooks/auto-capture.ts) *)

Module SessionScope.

(** [s.split(":")] *)
Fixpoint split_colon (s : string) : Datatypes.list string :=
  match s with
  | EmptyString => [EmptyString]
  | String c r =>
      let parts := split_colon r in
      if Ascii.eqb c ":"%char then EmptyString :: parts
      else match parts with
           | p :: ps => String c p :: ps
           | [] => [String c EmptyString]
           end
  end.

Record Scope := mkScope { userId : string; agentId : string }.

(** [extractScope] of the slot tools. *)
Definition extractScope (sessionKey : string) (scope : option string) : Scope :=
  let parts := split_colon sessionKey in
  let agentId := if (2 <=? length parts)%nat then nth 1 parts "" else "main" in
  let userId := if (3 <=? length parts)%nat then String.concat ":" (skipn 2 parts) else "default" in
  match scope with
  | Some "team" => mkScope userId "__team__"
  | Some "public" => mkScope "__public__" "__public__"
  | _ => mkScope userId agentId
  end.

(** The scope of the [memory_auto_capture] tool:
    [sessionKey.split(":")[1] || "main"] and
    [sessionKey.split(":").slice(2).join(":") || "default"]. *)
Definition autoCaptureScope (sessionKey : string) : Scope :=
  let agentId := match nth_error (split_colon sessionKey) 1 with
                 | Some a => if String.eqb a "" then "main" else a
                 | None => "main"
                 end in
  let userId := let j := String.concat ":" (skipn 2 (split_colon sessionKey)) in
                if String.eqb j "" then "default" else j in
  mkScope userId agentId.

End SessionScope.

(* ------------------------------------------------------------------------ *)
(** ** Sample inputs for the concrete runs *)

Module Samples.
  Import SlotDB GraphDB Capture Budget AutoCapture.

  (** Sample clock readings and inputs used by the concrete runs below. *)
Definition t_day0 : timestamp := "2025-12-31T00:00:00.000Z".
Definition t_day1 : timestamp := "2026-01-01T00:00:00.000Z".
Definition t_day2 : timestamp := "2026-01-02T00:00:00.000Z".

Definition name_v1 := mkSlotSetInput "profile.name" "1" None None None None.
Definition name_v2 := mkSlotSetInput "profile.name" "2" None None None None.
Definition temp_x := mkSlotSetInput "temp.x" "0" None None None (Some t_day0).
Definition hash_slot := mkSlotSetInput "_autocapture_hash" "7" None None None None.

  (** The row a first [set] of [name_v1] at [t_day0] writes. *)
Definition name_row : SlotRow :=
  mkSlotRow "profile:profile.name:1767139200000" "u" "a" "profile" "profile.name" "1" "tool" 1 1
    t_day0 t_day0 None.

  (** A table with one edge [a -uses-> b]; a second call on the same triple. *)
Definition edge_ab : RelationshipRow :=
  mkRelationshipRow "e1" "a" "b" "uses" 1%Q "{}" "u" "a" "2026-01-01T00:00:00.000Z".

Definition input_ab : RelationshipCreateInput :=
  mkRelationshipCreateInput "a" "b" "uses" (Some 2%Q) None.

  (** A message whose content mixes a text block, a tool call, a nested
      object and a number. *)
Definition sample_content : json :=
  JArr [JObj [("type", JStr "text"); ("text", JStr "hi")];
        JObj [("type", JStr "tool_use"); ("name", JStr "search"); ("input", JObj [("q", JNum "1")])];
        JObj [("x", JObj [("y", JArr [JNull; JBool true])])];
        JNum "-2.5e+3"].

  (** A conversation with a system message. *)
Definition sample_messages : Datatypes.list ConversationMessage :=
  [mkConversationMessage "system" (JStr "be brief");
   mkConversationMessage "user" (JStr "hello");
   mkConversationMessage "assistant" (JStr "hi there")].

  (** The slot [project.current_epic] at version 1, and a reply that
      removes it as stale and sets it to ["Phase 11"]. *)
Definition epic_v1 : SlotRow :=
  mkSlotRow "project:project.current_epic:1767225600000" "u" "a" "project" "project.current_epic"
    (stringify (JStr "Phase 10")) "auto_capture" (9 # 10) 1 "2026-01-01T00:00:00.000Z"
    "2026-01-01T00:00:00.000Z" None.

Definition epic_reply : LLMReply :=
  mkLLMReply [mkSlotUpdate "project.current_epic" (JStr "Phase 11") (9 # 10) "project"]
             [mkSlotRemoval "project.current_epic" "Phase 10 done"].

End Samples.

(* ======================================================================== *)
(** * Properties *)

(** ** General list facts *)

Section SortFacts.
  Variable A : Type.
  Variable le : A -> A -> bool.

Lemma in_insert_by x y l : In y (insert_by le x l) <-> x = y \/ In y l.
  Proof.
    induction l as [|z l IH]; simpl; [tauto|].
    destruct (le x z); simpl; rewrite ?IH; tauto.
  Qed.

Lemma in_sort_by y l : In y (sort_by le l) <-> In y l.
  Proof.
    induction l as [|z l IH]; simpl; [tauto|].
    rewrite in_insert_by, IH. tauto.
  Qed.
End SortFacts.

Section ListFacts.
  Variables A B : Type.
  Variable f : A -> B.

Lemma NoDup_map_inj_in (l : list A) x y :
    NoDup (map f l) -> In x l -> In y l -> f x = f y -> x = y.
  Proof.
    induction l as [|z l IH]; simpl; [tauto|].
    intros Hnd Hx Hy Hf. inversion Hnd as [|? ? Hnin Hnd']; subst.
    destruct Hx as [<-|Hx], Hy as [<-|Hy]; auto.
    - exfalso. apply Hnin. rewrite Hf. now apply in_map.
    - exfalso. apply Hnin. rewrite <- Hf. now apply in_map.
  Qed.

Lemma NoDup_map_filter (p : A -> bool) (l : list A) :
    NoDup (map f l) -> NoDup (map f (filter p l)).
  Proof.
    induction l as [|z l IH]; simpl; [auto|].
    intros Hnd. inversion Hnd as [|? ? Hnin Hnd']; subst.
    destruct (p z); simpl; auto.
    constructor; auto. intros Hin. apply Hnin.
    apply in_map_iff in Hin as (w & Hw & Hin). apply filter_In in Hin as [Hin _].
    rewrite <- Hw. now apply in_map.
  Qed.

Lemma NoDup_snoc (l : list B) x : NoDup l -> ~ In x l -> NoDup (l ++ [x]).
  Proof.
    induction l as [|z l IH]; simpl; intros Hnd Hnin.
    - constructor; [simpl; tauto | constructor].
    - inversion Hnd as [|? ? Hz Hnd']; subst. constructor.
      + rewrite in_app_iff. simpl. intros [H|[H|H]]; [tauto| |tauto]. apply Hnin; auto.
      + apply IH; auto.
  Qed.

Lemma NoDup_map_const_length (l : list A) c :
    NoDup (map f l) -> (forall x, In x l -> f x = c) -> length l <= 1.
  Proof.
    destruct l as [|x [|y l]]; simpl; try lia.
    intros Hnd Hc. inversion Hnd as [|? ? Hnin _]; subst.
    exfalso. apply Hnin. left. rewrite (Hc x), (Hc y); auto.
  Qed.
End ListFacts.

Lemma eqb_true_iff_eq (s t : string) : String.eqb s t = true <-> s = t.
Proof. apply String.eqb_eq. Qed.

Module SlotFacts.
  Import SlotDB.
  Local Open Scope list_scope.

  (** Well-formed [slots] table: PRIMARY KEY [id] and the lookup triple of
      [set] are unique. *)
Definition wf (db : table) : Prop :=
    NoDup (map id db) /\ NoDup (map skey db).

Lemma wf_filter p db : wf db -> wf (filter p db).
  Proof.
    intros [H1 H2]. split; now apply NoDup_map_filter.
  Qed.

Lemma select_key_some db u a k r :
    select_key db u a k = Some r -> In r db /\ skey r = (u, a, k).
  Proof.
    unfold select_key. intros H. apply find_some in H as [Hin Hp].
    unfold in_scope in Hp. apply andb_true_iff in Hp as [Hp Hk].
    apply andb_true_iff in Hp as [Hu Ha].
    apply String.eqb_eq in Hu, Ha, Hk. unfold skey. subst. auto.
  Qed.

Lemma select_key_none db u a k :
    select_key db u a k = None -> forall x, In x db -> skey x <> (u, a, k).
  Proof.
    unfold select_key. intros H x Hin Hx. eapply find_none in H; [|exact Hin].
    unfold skey in Hx. inversion Hx; subst.
    unfold in_scope in H. rewrite !String.eqb_refl in H. discriminate.
  Qed.

Lemma update_row_spec db old r' db' :
    wf db -> In old db -> id r' = id old -> update_row db r' = Some db' ->
    exists pre post, db = pre ++ old :: post /\ db' = pre ++ r' :: post.
  Proof.
    intros [Hid _] Hin Hidr Hup. unfold update_row in Hup.
    destruct existsb; [discriminate|]. injection Hup as <-.
    apply in_split in Hin as (pre & post & ->).
    exists pre, post. split; [reflexivity|].
    rewrite map_app. simpl. rewrite Hidr, String.eqb_refl.
    rewrite map_app in Hid. simpl in Hid.
    apply NoDup_remove_2 in Hid. rewrite in_app_iff in Hid.
    f_equal; [rewrite <- (map_id pre) at 2 | f_equal; rewrite <- (map_id post) at 2];
      apply map_ext_in; intros x Hx;
      destruct (String.eqb (id x) (id old)) eqn:E; auto;
      apply String.eqb_eq in E; exfalso; apply Hid; rewrite <- E;
      [left | right]; now apply in_map.
  Qed.

Lemma insert_row_spec db r' db' :
    insert_row db r' = Some db' ->
    db' = db ++ [r'] /\ ~ In (id r') (map id db).
  Proof.
    unfold insert_row. destruct existsb eqn:E; [discriminate|].
    intros H. injection H as <-. split; [reflexivity|].
    intros Hin. apply in_map_iff in Hin as (x & Hx & Hin).
    assert (existsb (fun r => String.eqb (id r) (id r') || ukey_eqb (ukey r) (ukey r')) db = true)
      as Hc.
    { apply existsb_exists. exists x. split; auto. rewrite Hx, String.eqb_refl. reflexivity. }
    congruence.
  Qed.

  (** The fields [set] writes, as listed in the specification of [set]. *)
Definition written (inp : SlotSetInput) (now : timestamp) (r : SlotRow) : Prop :=
    value r = in_value inp /\
    category r = js_str_or (in_category inp) (inferCategory (in_key inp)) /\
    source r = js_str_or (in_source inp) "tool" /\
    confidence r = match in_confidence inp with Some c => c | None => 1%Q end /\
    expires_at r = expires_of inp /\
    updated_at r = now.

  (** What a successful [set] does to the table: rewrite the one existing
      row of [(u, a, key)] in place with its version bumped by one, or append
      a new row at version 1 when there is none. *)
Definition set_outcome (db : table) (u a : string) (inp : SlotSetInput)
      (now : timestamp) (db' : table) (r : SlotRow) : Prop :=
    (exists old pre post,
        skey old = (u, a, in_key inp) /\
        db = pre ++ old :: post /\ db' = pre ++ r :: post /\
        id r = id old /\ skey r = skey old /\ created_at r = created_at old /\
        version r = (version old + 1)%Z /\ written inp now r)
    \/
    ((forall x, In x db -> skey x <> (u, a, in_key inp)) /\
        db' = db ++ [r] /\ skey r = (u, a, in_key inp) /\
        version r = 1%Z /\ created_at r = now /\ written inp now r).

Lemma set_spec db u a inp now ms db' r :
    wf db -> set db u a inp now ms = Some (db', r) -> set_outcome db u a inp now db' r.
  Proof.
    intros Hwf Hset. unfold set_outcome. unfold set in Hset.
    destruct (select_key db u a (in_key inp)) as [old|] eqn:Hsel.
    - apply select_key_some in Hsel as [Hin Hsk].
      destruct update_row as [db''|] eqn:Hup; [|discriminate].
      injection Hset as <- <-.
      eapply update_row_spec in Hup; [|exact Hwf|exact Hin|reflexivity].
      destruct Hup as (pre & post & E1 & E2).
      left. exists old, pre, post. unfold written, skey in *. simpl.
      repeat split; auto.
    - destruct insert_row as [db''|] eqn:Hins; [|discriminate].
      injection Hset as <- <-.
      apply insert_row_spec in Hins as [E _].
      right. split; [now apply select_key_none|].
      unfold written, skey. simpl. repeat split; auto.
  Qed.

Lemma set_wf db u a inp now ms db' r :
    wf db -> set db u a inp now ms = Some (db', r) -> wf db'.
  Proof.
    intros Hwf Hset. pose proof (set_spec _ _ _ _ _ _ _ _ Hwf Hset) as
      [(old & pre & post & Hsk & E1 & E2 & Hid & Hsk' & _)|(Hnone & E & Hsk & _)].
    - destruct Hwf as [H1 H2]. subst. split.
      + rewrite map_app in *. simpl in *. now rewrite Hid.
      + rewrite map_app in *. simpl in *. now rewrite Hsk'.
    - unfold set in Hset.
      destruct (select_key db u a (in_key inp)) eqn:Hsel.
      { apply select_key_some in Hsel as [Hin Hs]. exfalso. eapply Hnone; eauto. }
      destruct insert_row as [db''|] eqn:Hins; [|discriminate].
      injection Hset as <- <-. apply insert_row_spec in Hins as [E' Hnid].
      destruct Hwf as [H1 H2]. subst db''. split; rewrite map_app; simpl.
      + now apply NoDup_snoc.
      + apply NoDup_snoc; auto. intros Hin. apply in_map_iff in Hin as (x & Hx & Hin).
        eapply Hnone; [exact Hin| rewrite Hx; exact Hsk].
  Qed.

Lemma get_table db u a inp now : fst (get db u a inp now) = cleanExpired db u a now.
  Proof.
    unfold get. destruct (g_key inp) as [k|], (g_category inp) as [c|];
      try destruct (String.eqb k ""); try destruct (String.eqb c ""); reflexivity.
  Qed.

Lemma step_wf db op : wf db -> wf (step db op).
  Proof.
    intros Hwf. destruct op; simpl.
    - destruct set as [[db' r]|] eqn:E; [eapply set_wf; eauto | auto].
    - rewrite get_table. now apply wf_filter.
    - now apply wf_filter.
    - now apply wf_filter.
    - now apply wf_filter.
    - auto.
  Qed.

Lemma run_ops_wf ops db : wf db -> wf (run_ops db ops).
  Proof.
    unfold run_ops. revert db. induction ops as [|op ops IH]; simpl; auto.
    intros db H. apply IH. now apply step_wf.
  Qed.

Lemma wf_nil : wf [].
  Proof. split; constructor. Qed.
End SlotFacts.

Module StateFacts.
  Import SlotDB SlotFacts.
  Local Open Scope list_scope.

  (** [state[c]?.[k]] *)
Definition get2 (st : state) (c k : string) : option string :=
    match obj_get st c with Some m => obj_get m k | None => None end.

Lemma obj_get_set {V} (o : Datatypes.list (string * V)) k v k' :
    obj_get (obj_set o k v) k' = if String.eqb k' k then Some v else obj_get o k'.
  Proof.
    induction o as [|[k1 v1] o IH]; simpl.
    - destruct (String.eqb k' k); reflexivity.
    - destruct (String.eqb k k1) eqn:E1; simpl.
      + apply String.eqb_eq in E1. subst k1. destruct (String.eqb k' k); reflexivity.
      + destruct (String.eqb k' k1) eqn:E2; rewrite ?IH; auto.
        apply String.eqb_eq in E2. subst k1.
        destruct (String.eqb k' k) eqn:E3; auto.
        apply String.eqb_eq in E3. subst. rewrite String.eqb_refl in E1. discriminate.
  Qed.

Lemma in_obj_set {V} (o : Datatypes.list (string * V)) k v p :
    In p (obj_set o k v) -> p = (k, v) \/ In p o.
  Proof.
    induction o as [|[k1 v1] o IH]; simpl; [intuition|].
    destruct (String.eqb k k1); simpl; intuition.
  Qed.

Lemma obj_get_in {V} (o : Datatypes.list (string * V)) k v :
    obj_get o k = Some v -> In (k, v) o.
  Proof.
    induction o as [|[k1 v1] o IH]; simpl; [discriminate|].
    destruct (String.eqb k k1) eqn:E.
    - apply String.eqb_eq in E. intros H. injection H as <-. subst. auto.
    - auto.
  Qed.

Definition ck_match (c k : string) (r : SlotRow) : bool :=
    String.eqb (category r) c && String.eqb (key r) k.

Lemma get2_state_add st r c k :
    get2 (state_add st r) c k =
    if ck_match c k r then Some (value r) else get2 st c k.
  Proof.
    unfold get2, state_add, ck_match. rewrite obj_get_set.
    destruct (String.eqb c (category r)) eqn:Ec; rewrite (String.eqb_sym (category r) c), Ec; simpl.
    - apply String.eqb_eq in Ec. subst c. rewrite obj_get_set.
      rewrite (String.eqb_sym (key r) k).
      destruct (String.eqb k (key r)); auto.
      destruct (obj_get st (category r)); reflexivity.
    - reflexivity.
  Qed.

Lemma find_app_single {A} (p : A -> bool) l x :
    find p (l ++ [x]) = match find p l with Some y => Some y | None => if p x then Some x else None end.
  Proof.
    induction l as [|y l IH]; simpl; [reflexivity|].
    destruct (p y); auto.
  Qed.

Lemma get2_fold rows st c k :
    get2 (fold_left state_add rows st) c k =
    match find (ck_match c k) (rev rows) with
    | Some r => Some (value r)
    | None => get2 st c k
    end.
  Proof.
    revert st. induction rows as [|r rows IH]; intros st; simpl; [reflexivity|].
    rewrite IH, find_app_single, get2_state_add.
    destruct (find (ck_match c k) (rev rows)); auto.
    destruct (ck_match c k r); reflexivity.
  Qed.

Lemma state_entries rows st c m k v :
    In (c, m) (fold_left state_add rows st) -> In (k, v) m ->
    (exists r, In r rows /\ category r = c /\ key r = k /\ value r = v) \/
    (exists m0, In (c, m0) st /\ In (k, v) m0).
  Proof.
    revert st m. induction rows as [|r rows IH]; intros st m; simpl.
    - intros H1 H2. right. eauto.
    - intros H1 H2. destruct (IH _ _ H1 H2) as [(r' & ? & ?)|(m0 & Hm0 & Hkv)].
      + left. exists r'. intuition.
      + unfold state_add in Hm0. apply in_obj_set in Hm0 as [E|Hm0].
        * injection E as -> ->. apply in_obj_set in Hkv as [E|Hkv].
          -- injection E as -> ->. left. exists r. intuition.
          -- right. destruct (obj_get st (category r)) as [sub|] eqn:Es; [|contradiction].
             exists sub. split; auto. now apply obj_get_in.
        * right. eauto.
  Qed.

Lemma state_of_rows_entries rows c m k v :
    In (c, m) (state_of_rows rows) -> In (k, v) m ->
    exists r, In r rows /\ category r = c /\ key r = k /\ value r = v.
  Proof.
    intros H1 H2. destruct (state_entries _ _ _ _ _ _ H1 H2) as [H|(m0 & [] & _)]. exact H.
  Qed.

Lemma find_unique {A} (p : A -> bool) l r :
    (forall x, In x l -> p x = true -> x = r) -> In r l -> p r = true -> find p l = Some r.
  Proof.
    intros Hu Hin Hp. destruct (find p l) as [y|] eqn:E.
    - apply find_some in E as [Hy Hpy]. f_equal. now apply Hu.
    - exfalso. eapply find_none in E; [|exact Hin]. congruence.
  Qed.

Lemma find_none_all {A} (p : A -> bool) l :
    (forall x, In x l -> p x = false) -> find p l = None.
  Proof.
    induction l as [|x l IH]; simpl; intros H; auto.
    rewrite H by auto. apply IH. auto.
  Qed.

Lemma in_scope_skey u a r : in_scope u a r = true -> exists k, skey r = (u, a, k).
  Proof.
    unfold in_scope, skey. intros H. apply andb_true_iff in H as [Hu Ha].
    apply String.eqb_eq in Hu, Ha. subst. eauto.
  Qed.

  (** In a well-formed table a scope holds at most one row per key. *)
Lemma scope_key_unique db u a r1 r2 :
    wf db -> In r1 db -> In r2 db -> in_scope u a r1 = true -> in_scope u a r2 = true ->
    key r1 = key r2 -> r1 = r2.
  Proof.
    intros [_ Hsk] H1 H2 Hs1 Hs2 Hk. eapply NoDup_map_inj_in; eauto.
    unfold in_scope, skey in *.
    apply andb_true_iff in Hs1 as [Hu1 Ha1]. apply andb_true_iff in Hs2 as [Hu2 Ha2].
    apply String.eqb_eq in Hu1, Ha1, Hu2, Ha2. congruence.
  Qed.

Lemma cleanExpired_In db u a now r :
    In r (cleanExpired db u a now) <-> In r db /\ (in_scope u a r && expired_at now r = false).
  Proof.
    unfold cleanExpired. rewrite filter_In.
    destruct (in_scope u a r && expired_at now r); simpl; intuition.
  Qed.

Definition get_rows (g : GetResult) : Datatypes.list SlotRow :=
    match g with GOne (Some r) => [r] | GOne None => [] | GMany rs => rs end.

  (** No row of scope [(u, a)] in [db] has expired at [now]. *)
Definition unexpired_in (u a : string) (now : timestamp) (db : table) : Prop :=
    forall r, In r db -> in_scope u a r = true -> expired_at now r = false.

Lemma unexpired_clean db u a now : unexpired_in u a now (cleanExpired db u a now).
  Proof.
    intros r Hin Hs. apply cleanExpired_In in Hin as [_ H]. now rewrite Hs in H.
  Qed.

Lemma in_sorted_scope le db u a (p : SlotRow -> bool) r :
    In r (sort_by le (filter (fun x => in_scope u a x && p x) db)) ->
    In r db /\ in_scope u a r = true.
  Proof.
    rewrite in_sort_by, filter_In. intros [H1 H2]. apply andb_true_iff in H2. tauto.
  Qed.

Lemma in_sorted_scope' le db u a r :
    In r (sort_by le (filter (in_scope u a) db)) -> In r db /\ in_scope u a r = true.
  Proof. rewrite in_sort_by, filter_In. tauto. Qed.

Lemma get_rows_spec db u a inp now r :
    In r (get_rows (snd (get db u a inp now))) ->
    In r (cleanExpired db u a now) /\ in_scope u a r = true.
  Proof.
    unfold get. set (db' := cleanExpired db u a now).
    destruct (g_key inp) as [k|], (g_category inp) as [c|];
      try destruct (String.eqb k ""); try destruct (String.eqb c ""); simpl;
      try apply in_sorted_scope'; try apply in_sorted_scope.
    all: destruct (select_key db' u a k) as [x|] eqn:E; simpl; [|tauto].
    all: intros [<-|[]]; apply find_some in E as [Hin Hp];
         apply andb_true_iff in Hp; tauto.
  Qed.
  (** The mapping built by [getCurrentState] holds exactly the live rows of
      the scope. *)
Lemma current_state_get2 db u a now c k v :
    wf db ->
    get2 (snd (getCurrentState db u a now)) c k = Some v <->
    exists r, In r db /\ in_scope u a r = true /\
              expired_at now r = false /\ category r = c /\ key r = k /\ value r = v.
  Proof.
    intros Hwf. simpl.
    unfold state_of_rows. rewrite get2_fold.
    split.
    - destruct find as [r|] eqn:E; [|discriminate]. intros Hv. injection Hv as <-.
      apply find_some in E as [Hr Hck]. apply in_rev, in_sorted_scope' in Hr as [Hr Hs].
      apply cleanExpired_In in Hr as [Hr Hn]. rewrite Hs in Hn.
      unfold ck_match in Hck. apply andb_true_iff in Hck as [Hc Hk].
      apply String.eqb_eq in Hc, Hk. exists r. repeat split; auto.
    - intros (r & Hr & Hs & Hn & Hc & Hk & Hv).
      rewrite (find_unique _ _ r); [congruence| | |].
      + intros x Hx Hck. apply in_rev, in_sorted_scope' in Hx as [Hx Hsx].
        apply cleanExpired_In in Hx as [Hx _].
        unfold ck_match in Hck. apply andb_true_iff in Hck as [_ Hkx].
        apply String.eqb_eq in Hkx. eapply scope_key_unique; eauto. congruence.
      + apply in_rev. rewrite rev_involutive, in_sort_by, filter_In. split; auto.
        apply cleanExpired_In. rewrite Hs, Hn. auto.
      + unfold ck_match. rewrite Hc, Hk, !String.eqb_refl. reflexivity.
  Qed.
End StateFacts.

Module RecallFacts.
  Import SlotDB SlotFacts StateFacts AutoRecall.
  Local Open Scope list_scope.

  (** [String.ltb] is a strict order. *)
Lemma compare_lt_trans s1 s2 s3 :
    String.compare s1 s2 = Lt -> String.compare s2 s3 = Lt -> String.compare s1 s3 = Lt.
  Proof.
    revert s2 s3; induction s1 as [|c1 s1 IH]; intros [|c2 s2] [|c3 s3]; simpl;
      try discriminate; auto.
    unfold Ascii.compare.
    destruct (N.compare_spec (N_of_ascii c1) (N_of_ascii c2));
    destruct (N.compare_spec (N_of_ascii c2) (N_of_ascii c3)); try discriminate;
    intros H1 H2;
    destruct (N.compare_spec (N_of_ascii c1) (N_of_ascii c3)); try lia; eauto.
  Qed.

Lemma ts_lt_trans s1 s2 s3 : ts_lt s1 s2 = true -> ts_lt s2 s3 = true -> ts_lt s1 s3 = true.
  Proof.
    unfold ts_lt, String.ltb.
    destruct (String.compare s1 s2) eqn:E1; try discriminate;
    destruct (String.compare s2 s3) eqn:E2; try discriminate.
    now rewrite (compare_lt_trans _ _ _ E1 E2).
  Qed.

Lemma ts_lt_irrefl s : ts_lt s s = false.
  Proof.
    unfold ts_lt, String.ltb. induction s as [|c s IH]; simpl; [reflexivity|].
    unfold Ascii.compare. rewrite N.compare_refl. exact IH.
  Qed.

Lemma ts_lt_empty_r s : ts_lt s "" = false.
  Proof. destruct s; reflexivity. Qed.

Lemma ts_lt_empty_l s : ts_lt "" s = false -> s = "".
  Proof. destruct s; [reflexivity|discriminate]. Qed.

Lemma js_str_or_empty s : js_str_or (Some s) "" = s.
  Proof. simpl. destruct (String.eqb s "") eqn:E; auto. now apply String.eqb_eq in E. Qed.

  (** Keys of JS objects. *)
Lemma in_keys_obj_set {V} (o : Datatypes.list (string * V)) k v x :
    In x (map fst (obj_set o k v)) -> x = k \/ In x (map fst o).
  Proof.
    intros H. apply in_map_iff in H as ([x' v'] & <- & H).
    apply in_obj_set in H as [E|H].
    - injection E as -> ->. auto.
    - right. apply in_map_iff. exists (x', v'). auto.
  Qed.

Lemma NoDup_obj_set {V} (o : Datatypes.list (string * V)) k v :
    NoDup (map fst o) -> NoDup (map fst (obj_set o k v)).
  Proof.
    induction o as [|[k1 v1] o IH]; simpl; intros H.
    - constructor; [intros []|constructor].
    - inversion H as [|? ? Hn Hd]; subst. destruct (String.eqb k k1) eqn:E; simpl.
      + apply String.eqb_eq in E. subst. constructor; auto.
      + constructor; auto. intros Hin. apply in_keys_obj_set in Hin as [->|Hin]; [|contradiction].
        rewrite String.eqb_refl in E. discriminate.
  Qed.

Lemma obj_get_not_key {V} (o : Datatypes.list (string * V)) k :
    ~ In k (map fst o) -> obj_get o k = None.
  Proof.
    induction o as [|[k1 v1] o IH]; simpl; auto. intros Hn.
    destruct (String.eqb k k1) eqn:E.
    - apply String.eqb_eq in E. subst. tauto.
    - auto.
  Qed.

  (** Both levels of a [state] have distinct keys. *)
Definition st_nodup (st : state) : Prop :=
    NoDup (map fst st) /\ forall c m, In (c, m) st -> NoDup (map fst m).

Lemma st_nodup_add st r : st_nodup st -> st_nodup (state_add st r).
  Proof.
    intros [H1 H2]. unfold state_add. split; [now apply NoDup_obj_set|].
    intros c m Hin. apply in_obj_set in Hin as [E|Hin]; [|eauto].
    injection E as E1 E2. subst c m. apply NoDup_obj_set.
    destruct (obj_get st (category r)) eqn:E; [|constructor].
    eapply H2, obj_get_in; eauto.
  Qed.

Lemma st_nodup_fold rows st : st_nodup st -> st_nodup (fold_left state_add rows st).
  Proof. revert st. induction rows; simpl; auto using st_nodup_add. Qed.

Lemma st_nodup_rows rows : st_nodup (state_of_rows rows).
  Proof. apply st_nodup_fold. split; [constructor|intros ? ? []]. Qed.

  (** The pair [(mergedState[c]?.[k], mergedTimestamps[c]?.[k])]. *)
Definition mlook (acc : state * state) (c k : string) : option string * option timestamp :=
    (get2 (fst acc) c k, get2 (snd acc) c k).

  (** The effect of one entry [(k, v)] of a scope's state on that pair. *)
Definition merge1 (tsMap : Datatypes.list (string * timestamp)) (k v : string)
      (p : option string * option timestamp) : option string * option timestamp :=
    if starts_with "_" k then p
    else let newTs := js_str_or (obj_get tsMap k) "" in
         if keeps_new (snd p) newTs then (Some v, Some newTs) else p.

Lemma get2_sub o c k : obj_get (sub o c) k = get2 o c k.
  Proof. unfold sub, get2. destruct (obj_get o c); reflexivity. Qed.

Lemma get2_set2 (o : state) c k v c' k' :
    get2 (obj_set o c (obj_set (sub o c) k v)) c' k' =
    if String.eqb c' c && String.eqb k' k then Some v else get2 o c' k'.
  Proof.
    unfold get2 at 1. rewrite obj_get_set. destruct (String.eqb c' c) eqn:Ec; simpl.
    - apply String.eqb_eq in Ec. subst. rewrite obj_get_set, get2_sub.
      destruct (String.eqb k' k); reflexivity.
    - reflexivity.
  Qed.

Lemma get2_set_empty (o : state) c c' k' :
    get2 (obj_set o c []) c' k' = if String.eqb c' c then None else get2 o c' k'.
  Proof.
    unfold get2 at 1. rewrite obj_get_set. destruct (String.eqb c' c); reflexivity.
  Qed.

Lemma merge_key_look tsMap c acc k v c' k' :
    mlook (merge_key tsMap c acc (k, v)) c' k' =
    if String.eqb c' c && String.eqb k' k then merge1 tsMap k v (mlook acc c k)
    else mlook acc c' k'.
  Proof.
    destruct acc as [ms mt]. unfold merge_key, merge1, mlook; simpl. rewrite get2_sub.
    destruct (String.eqb c' c && String.eqb k' k) eqn:E.
    - apply andb_true_iff in E as [E1 E2]. apply String.eqb_eq in E1, E2. subst.
      destruct (starts_with "_" k); [reflexivity|].
      destruct keeps_new; simpl; [|reflexivity].
      rewrite !get2_set2, !String.eqb_refl. reflexivity.
    - destruct (starts_with "_" k); [reflexivity|].
      destruct keeps_new; simpl; [|reflexivity].
      rewrite !get2_set2, E. reflexivity.
  Qed.
  (** [mergedState] and [mergedTimestamps] have the same entries. *)
Definition paired (p : option string * option timestamp) : Prop :=
    match p with (None, None) | (Some _, Some _) => True | _ => False end.

Definition agree (acc : state * state) : Prop := forall c k, paired (mlook acc c k).

Lemma merge1_paired tsMap k v p : paired p -> paired (merge1 tsMap k v p).
  Proof. intros H. unfold merge1. destruct starts_with; [exact H|]. destruct keeps_new; simpl; [exact I|exact H]. Qed.

Lemma fold_keys_look tsMap c cs acc c' k' :
    NoDup (map fst cs) ->
    mlook (fold_left (merge_key tsMap c) cs acc) c' k' =
    if String.eqb c' c then
      match obj_get cs k' with
      | Some v => merge1 tsMap k' v (mlook acc c' k')
      | None => mlook acc c' k'
      end
    else mlook acc c' k'.
  Proof.
    revert acc. induction cs as [|[k v] cs IH]; intros acc Hd; simpl.
    - destruct (String.eqb c' c); reflexivity.
    - inversion Hd as [|? ? Hn Hd']; subst. rewrite IH by exact Hd'.
      rewrite !merge_key_look.
      destruct (String.eqb c' c) eqn:Ec; simpl; [|reflexivity].
      apply String.eqb_eq in Ec. subst c'.
      destruct (String.eqb k' k) eqn:Ek; simpl.
      + apply String.eqb_eq in Ek. subst k'. rewrite obj_get_not_key by exact Hn.
        reflexivity.
      + destruct (obj_get cs k'); reflexivity.
  Qed.

Lemma merge_category_look tsMap acc c cs c' k' :
    agree acc -> NoDup (map fst cs) ->
    mlook (merge_category tsMap acc (c, cs)) c' k' =
    if String.eqb c' c then
      match obj_get cs k' with
      | Some v => merge1 tsMap k' v (mlook acc c' k')
      | None => mlook acc c' k'
      end
    else mlook acc c' k'.
  Proof.
    intros Hag Hd. destruct acc as [ms mt]. unfold merge_category.
    destruct (obj_get ms c) eqn:Eo; rewrite fold_keys_look by exact Hd; [reflexivity|].
    assert (Hi : mlook (obj_set ms c [], obj_set mt c []) c' k' = mlook (ms, mt) c' k').
    { unfold mlook; simpl. rewrite !get2_set_empty.
      destruct (String.eqb c' c) eqn:Ec; [|reflexivity].
      apply String.eqb_eq in Ec. subst c'.
      specialize (Hag c k'). unfold mlook, get2 in *; simpl in *. rewrite Eo in *.
      destruct (obj_get mt c) as [m|]; [|reflexivity].
      destruct (obj_get m k'); [contradiction|reflexivity]. }
    destruct (String.eqb c' c); [|exact Hi].
    rewrite Hi. reflexivity.
  Qed.

Lemma merge_category_agree tsMap acc c cs :
    agree acc -> NoDup (map fst cs) -> agree (merge_category tsMap acc (c, cs)).
  Proof.
    intros Hag Hd c' k'. rewrite merge_category_look by assumption.
    destruct (String.eqb c' c); [destruct (obj_get cs k')|]; auto using merge1_paired.
  Qed.

Lemma fold_cats_agree tsMap st acc :
    st_nodup st -> agree acc -> agree (fold_left (merge_category tsMap) st acc).
  Proof.
    revert acc. induction st as [|[c cs] st IH]; intros acc [Hd Hm] Hag; simpl; auto.
    inversion Hd; subst. apply IH.
    - split; auto. intros; eapply Hm; right; eauto.
    - apply merge_category_agree; auto. eapply Hm; left; reflexivity.
  Qed.

Lemma fold_cats_look tsMap st acc c k :
    st_nodup st -> agree acc ->
    mlook (fold_left (merge_category tsMap) st acc) c k =
    match get2 st c k with
    | Some v => merge1 tsMap k v (mlook acc c k)
    | None => mlook acc c k
    end.
  Proof.
    revert acc. induction st as [|[c0 cs] st IH]; intros acc [Hd Hm] Hag; cbn [fold_left];
      [reflexivity|].
    inversion Hd as [|? ? Hn Hd']; subst.
    assert (Hcs : NoDup (map fst cs)) by (eapply Hm; left; reflexivity).
    rewrite IH.
    2: { split; auto. intros; eapply Hm; right; eauto. }
    2: { apply merge_category_agree; auto. }
    rewrite merge_category_look by assumption.
    replace (get2 ((c0, cs) :: st) c k)
      with (if String.eqb c c0 then obj_get cs k else get2 st c k)
      by (unfold get2; simpl; destruct (String.eqb c c0); reflexivity).
    destruct (String.eqb c c0) eqn:Ec; [|reflexivity].
    apply String.eqb_eq in Ec. subst c0.
    replace (get2 st c k) with (@None string)
      by (unfold get2; rewrite obj_get_not_key by exact Hn; reflexivity).
    reflexivity.
  Qed.

Lemma ts_map_fold rows m0 k :
    obj_get (fold_left (fun m s => obj_set m (key s) (updated_at s)) rows m0) k =
    match find (fun s => String.eqb (key s) k) (rev rows) with
    | Some s => Some (updated_at s)
    | None => obj_get m0 k
    end.
  Proof.
    revert m0. induction rows as [|r rows IH]; intros m0; simpl; [reflexivity|].
    rewrite IH, find_app_single, obj_get_set, (String.eqb_sym k (key r)).
    destruct (find _ (rev rows)); auto. destruct (String.eqb (key r) k); reflexivity.
  Qed.

  (** A live slot of [db] at [now], in one of the scopes [S], at [(c, k)]. *)
Definition live_in (db : table) (now : timestamp) (S : Datatypes.list (string * string))
      (c k : string) (r : SlotRow) : Prop :=
    In r db /\ (exists s, In s S /\ in_scope (fst s) (snd s) r = true) /\
    expired_at now r = false /\ category r = c /\ key r = k.

Lemma live_in_app db now S u a c k r :
    live_in db now (S ++ [(u, a)]) c k r <->
    live_in db now S c k r \/
    ((In r db /\ in_scope u a r = true /\ expired_at now r = false) /\ category r = c /\ key r = k).
  Proof.
    unfold live_in. split.
    - intros (H1 & (s & Hs & Hin) & H3 & H4 & H5). apply in_app_or in Hs as [Hs|[<-|[]]].
      + left. repeat split; eauto.
      + right. simpl in Hin. tauto.
    - intros [(H1 & (s & Hs & Hin) & H3 & H4 & H5)|((H1 & H2 & H3) & H4 & H5)].
      + repeat split; auto. exists s. split; auto. apply in_or_app. auto.
      + repeat split; auto. exists (u, a). split; auto. apply in_or_app. right. left. auto.
  Qed.

  (** After the scopes [S] have been merged: the table [dbi] has lost only
      expired rows of [db], and for every [(c, k)] the merged pair is empty
      when no live slot of [S] is at [(c, k)] (always, for an underscore key),
      and otherwise holds the value and [updated_at] of a live slot at [(c, k)]
      whose [updated_at] no other one exceeds. *)
Definition merge_inv (db : table) (now : timestamp) (S : Datatypes.list (string * string))
      (x : table * (state * state)) : Prop :=
    let '(dbi, acc) := x in
    wf dbi /\ (forall r, In r dbi -> In r db) /\
    (forall r, In r db -> expired_at now r = false -> In r dbi) /\
    agree acc /\
    (forall c k, starts_with "_" k = true -> mlook acc c k = (None, None)) /\
    (forall c k, starts_with "_" k = false ->
       (mlook acc c k = (None, None) /\ forall r, ~ live_in db now S c k r) \/
       (exists r, live_in db now S c k r /\
                  mlook acc c k = (Some (value r), Some (updated_at r)) /\
                  forall r', live_in db now S c k r' -> ts_lt (updated_at r) (updated_at r') = false)).

Lemma merge_inv_init db now : wf db -> merge_inv db now [] (db, ([], [])).
  Proof.
    intros Hwf. simpl. split; [exact Hwf|]. split; [auto|]. split; [auto|].
    split; [intros c k; exact I|]. split; [reflexivity|].
    intros c k _. left. split; [reflexivity|]. intros r (_ & (s & [] & _) & _).
  Qed.

Lemma merge_scope_inv db now S x u a :
    wf db -> merge_inv db now S x -> merge_inv db now (S ++ [(u, a)]) (merge_scope now x (u, a)).
  Proof.
    intros Hwf. destruct x as [dbi acc].
    intros (Hwfi & Hsub & Hlive & Hag & Hund & Hmain).
    unfold merge_scope.
    destruct (getCurrentState dbi u a now) as [db1 st] eqn:Eg.
    destruct (list db1 u a (mkSlotListInput None None) now) as [db2 slots] eqn:El.
    pose proof (current_state_get2 dbi u a now) as Hcur. rewrite Eg in Hcur. simpl in Hcur.
    unfold getCurrentState in Eg. cbv zeta in Eg. injection Eg as Hdb1 Hst.
    unfold list in El. cbv zeta in El. injection El as Hdb2 Hslots. rewrite Hdb2 in Hslots.
    (* the rows of the scope that this step reads *)
    set (Pnew := fun r => In r db /\ in_scope u a r = true /\ expired_at now r = false).
    assert (Hdb2i : forall r, In r db2 <-> In r dbi /\ (in_scope u a r && expired_at now r = false)).
    { intros r. subst db2 db1. rewrite !cleanExpired_In. tauto. }
    assert (Hnew : forall r, In r dbi /\ in_scope u a r = true /\ expired_at now r = false <-> Pnew r).
    { intros r. unfold Pnew. split; [intros (H1 & H2 & H3); auto|].
      intros (H1 & H2 & H3). auto. }
    assert (Huniq : forall r1 r2, Pnew r1 -> Pnew r2 -> key r1 = key r2 -> r1 = r2).
    { intros r1 r2 (H1 & H2 & _) (H1' & H2' & _) Hk. exact (scope_key_unique db u a r1 r2 Hwf H1 H1' H2 H2' Hk). }
    assert (Hcur' : forall c k v, get2 st c k = Some v <->
                      exists r, Pnew r /\ category r = c /\ key r = k /\ value r = v).
    { intros c k v. rewrite (Hcur c k v Hwfi). split.
      - intros (r & H1 & H2 & H3 & H4). exists r. rewrite <- Hnew. tauto.
      - intros (r & H1 & H4). exists r. rewrite <- Hnew in H1. tauto. }
    assert (Hts : forall r, Pnew r -> obj_get (ts_map slots) (key r) = Some (updated_at r)).
    { intros r Hr. unfold ts_map. rewrite ts_map_fold.
      rewrite (find_unique _ _ r); [reflexivity| | |apply String.eqb_refl].
      - intros x Hx Hk. apply in_rev in Hx. subst slots.
        apply in_sorted_scope in Hx as [Hx Hs]. apply Hdb2i in Hx as [Hx Hn].
        rewrite Hs in Hn. apply String.eqb_eq in Hk.
        apply Huniq; auto. unfold Pnew. auto.
      - apply in_rev. rewrite rev_involutive. subst slots.
        rewrite in_sort_by, filter_In, Hdb2i. destruct Hr as (H1 & H2 & H3).
        rewrite H2, H3. simpl. auto. }
    assert (Hnd : st_nodup st) by (subst st; apply st_nodup_rows).
    split; [subst db2 db1; unfold cleanExpired; now apply wf_filter, wf_filter|].
    split; [intros r Hr; apply Hdb2i in Hr; apply Hsub; tauto|].
    split.
    { intros r Hr Hn. apply Hdb2i. split; [auto|]. rewrite Hn. apply andb_false_r. }
    split; [now apply fold_cats_agree|].
    split.
    { intros c k Hk. rewrite fold_cats_look by assumption.
      destruct (get2 st c k); [unfold merge1; rewrite Hk|]; auto. }
    intros c k Hk. rewrite fold_cats_look by assumption.
    destruct (get2 st c k) as [v|] eqn:Eg2.
    - apply Hcur' in Eg2 as (rs & Hrs & Hcs & Hks & Hvs). subst c k v.
      unfold merge1. rewrite Hk, Hts by exact Hrs. rewrite js_str_or_empty.
      assert (Hrs' : live_in db now (S ++ [(u, a)]) (category rs) (key rs) rs).
      { apply live_in_app. right. auto. }
      right.
      destruct (Hmain (category rs) (key rs) Hk) as [[Hnone Hno]|(r & Hr & Hlook & Hmax)].
      + rewrite Hnone. exists rs. split; [exact Hrs'|]. split; [reflexivity|].
        intros r' Hr'. apply live_in_app in Hr' as [Hr'|(Hr' & _ & Hk')].
        * exfalso. eapply Hno. exact Hr'.
        * rewrite (Huniq r' rs); auto. apply ts_lt_irrefl.
      + rewrite Hlook. simpl. destruct (String.eqb (updated_at r) "") eqn:Ee; simpl.
        * apply String.eqb_eq in Ee. exists rs. split; [exact Hrs'|]. split; [reflexivity|].
          intros r' Hr'. apply live_in_app in Hr' as [Hr'|(Hr' & _ & Hk')].
          -- apply Hmax in Hr'. rewrite Ee in Hr'. apply ts_lt_empty_l in Hr'.
             rewrite Hr'. apply ts_lt_empty_r.
          -- rewrite (Huniq r' rs); auto. apply ts_lt_irrefl.
        * destruct (ts_lt (updated_at r) (updated_at rs)) eqn:Elt.
          -- exists rs. split; [exact Hrs'|]. split; [reflexivity|].
             intros r' Hr'. apply live_in_app in Hr' as [Hr'|(Hr' & _ & Hk')].
             ++ destruct (ts_lt (updated_at rs) (updated_at r')) eqn:E'; [|reflexivity].
                pose proof (ts_lt_trans _ _ _ Elt E') as Hc. rewrite (Hmax r' Hr') in Hc.
                discriminate.
             ++ rewrite (Huniq r' rs); auto. apply ts_lt_irrefl.
          -- exists r. split; [apply live_in_app; left; exact Hr|]. split; [reflexivity|].
             intros r' Hr'. apply live_in_app in Hr' as [Hr'|(Hr' & _ & Hk')].
             ++ now apply Hmax.
             ++ rewrite (Huniq r' rs); auto.
    - assert (Hno' : forall r, ~ (Pnew r /\ category r = c /\ key r = k)).
      { intros r (H1 & H2 & H3).
        assert (get2 st c k = Some (value r)) by (apply Hcur'; exists r; auto).
        congruence. }
      destruct (Hmain c k Hk) as [[Hnone Hno]|(r & Hr & Hlook & Hmax)].
      + left. split; [exact Hnone|]. intros r Hr. apply live_in_app in Hr as [Hr|Hr].
        * eapply Hno. exact Hr.
        * eapply Hno'. exact Hr.
      + right. exists r. split; [apply live_in_app; left; exact Hr|]. split; [exact Hlook|].
        intros r' Hr'. apply live_in_app in Hr' as [Hr'|Hr'].
        * now apply Hmax.
        * exfalso. eapply Hno'. exact Hr'.
  Qed.

Lemma merge_scopes_inv db now S' S x :
    wf db -> merge_inv db now S x ->
    merge_inv db now (S ++ S') (fold_left (merge_scope now) S' x).
  Proof.
    intros Hwf. revert S x. induction S' as [|[u a] S' IH]; intros S x H; simpl.
    - now rewrite app_nil_r.
    - replace (S ++ (u, a) :: S') with ((S ++ [(u, a)]) ++ S') by (rewrite <- app_assoc; reflexivity).
      apply IH. now apply merge_scope_inv.
  Qed.
End RecallFacts.

Module CaptureFacts.
  Import Capture.

Section JsonInd.
  Variable P : json -> Prop.
  Hypothesis HNull : P JNull.
  Hypothesis HBool : forall b, P (JBool b).
  Hypothesis HNum : forall t, P (JNum t).
  Hypothesis HStr : forall s, P (JStr s).
  Hypothesis HArr : forall items, Forall P items -> P (JArr items).
  Hypothesis HObj : forall ps, Forall (fun kv => P (snd kv)) ps -> P (JObj ps).

  (** Induction on JSON values, with hypotheses for the elements of arrays
      and the property values of objects. *)
Fixpoint json_ind' (v : json) : P v :=
    match v with
    | JNull => HNull
    | JBool b => HBool b
    | JNum t => HNum t
    | JStr s => HStr s
    | JArr items =>
        HArr items ((fix go (l : Datatypes.list json) : Forall P l :=
                       match l with
                       | [] => Forall_nil P
                       | x :: r => Forall_cons x (json_ind' x) (go r)
                       end) items)
    | JObj ps =>
        HObj ps ((fix go (l : Datatypes.list (string * json)) : Forall (fun kv => P (snd kv)) l :=
                    match l with
                    | [] => Forall_nil _
                    | (k, x) :: r => Forall_cons (k, x) (json_ind' x) (go r)
                    end) ps)
    end.
End JsonInd.

  (** No character ['['] in [s]. *)
Fixpoint no_br (s : string) : bool :=
    match s with
    | EmptyString => true
    | String c r => negb (Ascii.eqb c "[") && no_br r
    end.

  (** The characters of a JS number text. *)
Definition num_text (t : string) : bool :=
    forallb (fun c => existsb (Ascii.eqb c) (list_ascii_of_string "0123456789.-+e"))
            (list_ascii_of_string t).

  (** No string value or property name of [v] contains ['['] (and its
      numbers are number texts). *)
Fixpoint bracket_free (v : json) : bool :=
    match v with
    | JNull | JBool _ => true
    | JNum t => num_text t
    | JStr s => no_br s
    | JArr items => forallb bracket_free items
    | JObj ps => forallb (fun kv => no_br (fst kv) && bracket_free (snd kv)) ps
    end.

Definition plain (v : json) : bool :=
    match v with JArr _ | JObj _ => false | _ => true end.

  (** Every object of [v] whose [type] is ["tool_use"] has no [name] or a
      [name] that is neither an object nor an array. *)
Fixpoint plain_tool_names (v : json) : bool :=
    match v with
    | JArr items => forallb plain_tool_names items
    | JObj ps =>
        (if type_is v "tool_use" then
           match prop v "name" with Some n => plain n | None => true end
         else true) &&
        forallb (fun kv => plain_tool_names (snd kv)) ps
    | _ => true
    end.

  (** Every ['['] of [s] is followed by a character other than ['o']. *)
Fixpoint safe (s : string) : bool :=
    match s with
    | EmptyString => true
    | String c r =>
        (if Ascii.eqb c "[" then
           match r with EmptyString => false | String d _ => negb (Ascii.eqb d "o") end
         else true) && safe r
    end.

Definition starts_o (s : string) : bool :=
    match s with String d _ => Ascii.eqb d "o" | EmptyString => false end.

Lemma safe_app a b : safe a = true -> safe b = true -> safe (a ++ b) = true.
  Proof.
    induction a as [|c r IH]; simpl; auto.
    intros Ha Hb. apply andb_true_iff in Ha as [H1 H2].
    rewrite IH by assumption. rewrite andb_true_r.
    destruct (Ascii.eqb c "["); auto. destruct r; [discriminate|exact H1].
  Qed.

Lemma safe_bracket x : safe x = true -> starts_o x = false -> x <> "" ->
    safe (String "[" x) = true.
  Proof.
    intros H1 H2 H3. simpl. rewrite H1. destruct x as [|d r]; [congruence|].
    simpl in H2. now rewrite H2.
  Qed.

Lemma no_br_safe s : no_br s = true -> safe s = true.
  Proof.
    induction s as [|c r IH]; simpl; auto. intros H. apply andb_true_iff in H as [H1 H2].
    apply negb_true_iff in H1. rewrite H1, IH; auto.
  Qed.

Lemma no_br_app a b : no_br a = true -> no_br b = true -> no_br (a ++ b) = true.
  Proof.
    induction a as [|c r IH]; simpl; auto. intros H Hb. apply andb_true_iff in H as [H1 H2].
    rewrite H1, IH; auto.
  Qed.

Lemma prefix_cons a p c r :
    String.prefix (String a p) (String c r) = if ascii_dec a c then String.prefix p r else false.
  Proof. reflexivity. Qed.

Lemma safe_no_object_object s : safe s = true -> contains "[object Object]" s = false.
  Proof.
    induction s as [|c r IH]; [reflexivity|].
    intros H. cbn [safe] in H. apply andb_true_iff in H as [H1 H2].
    cbn [contains]. rewrite IH by exact H2. rewrite orb_false_r, prefix_cons.
    destruct (ascii_dec "[" c) as [<-|Hc]; [|reflexivity].
    destruct r as [|d r]; [reflexivity|]. rewrite prefix_cons. simpl in H1.
    destruct (ascii_dec "o" d) as [<-|Hd]; [discriminate|reflexivity].
  Qed.

Lemma starts_o_app a b : starts_o a = false -> starts_o b = false -> starts_o (a ++ b) = false.
  Proof. destruct a; simpl; auto. Qed.

Lemma safe_concat sep l :
    safe sep = true -> Forall (fun s => safe s = true) l -> safe (String.concat sep l) = true.
  Proof.
    intros Hs Hl. induction Hl as [|x l Hx Hl IH]; [reflexivity|].
    simpl. destruct l; [exact Hx|]. apply safe_app; [exact Hx|]. apply safe_app; assumption.
  Qed.

Lemma starts_o_concat sep l :
    starts_o sep = false -> Forall (fun s => starts_o s = false) l ->
    starts_o (String.concat sep l) = false.
  Proof.
    intros Hs Hl. induction Hl as [|x l Hx Hl IH]; [reflexivity|].
    simpl. destruct l; [exact Hx|]. apply starts_o_app; [exact Hx|]. apply starts_o_app; assumption.
  Qed.
Lemma app_not_empty a b : b <> "" -> a ++ b <> "".
  Proof. destruct a; simpl; [auto|discriminate]. Qed.

Lemma escape_char_no_br c : negb (Ascii.eqb c "[") = true -> no_br (escape_char c) = true.
  Proof.
    destruct c as [[] [] [] [] [] [] [] []]; vm_compute; intros H;
      first [reflexivity | discriminate H].
  Qed.

Lemma no_br_escape s : no_br s = true -> no_br (escape s) = true.
  Proof.
    induction s as [|c r IH]; [reflexivity|]. intros H. cbn [no_br] in H.
    apply andb_true_iff in H as [H1 H2]. cbn [escape].
    apply no_br_app; [apply escape_char_no_br, H1 | apply IH, H2].
  Qed.

Lemma quote_safe s : no_br s = true -> safe (quote s) = true /\ starts_o (quote s) = false.
  Proof.
    intros H. split; [|reflexivity]. apply no_br_safe. unfold quote.
    change (no_br (escape s ++ String dq EmptyString) = true).
    apply no_br_app; [apply no_br_escape, H | reflexivity].
  Qed.

Lemma num_char_ok c :
    existsb (Ascii.eqb c) (list_ascii_of_string "0123456789.-+e") = true ->
    negb (Ascii.eqb c "[") = true /\ Ascii.eqb c "o" = false.
  Proof.
    intros H. apply existsb_exists in H as (d & Hd & E).
    apply Ascii.eqb_eq in E. subst d.
    simpl in Hd. repeat (destruct Hd as [<-|Hd]; [split; reflexivity|]). destruct Hd.
  Qed.

Lemma num_text_ok t : num_text t = true -> no_br t = true /\ starts_o t = false.
  Proof.
    unfold num_text. induction t as [|c r IH]; [split; reflexivity|].
    cbn [list_ascii_of_string forallb]. intros H. apply andb_true_iff in H as [H1 H2].
    destruct (num_char_ok c H1) as [E1 E2]. split; [|exact E2].
    cbn [no_br]. rewrite E1. apply IH, H2.
  Qed.

Lemma stringify_safe v :
    bracket_free v = true -> safe (stringify v) = true /\ starts_o (stringify v) = false.
  Proof.
    induction v as [|b|t|s|items IH|ps IH] using json_ind'; intros H.
    - split; reflexivity.
    - destruct b; split; reflexivity.
    - cbn [stringify]. destruct (num_text_ok t H). split; [apply no_br_safe|]; assumption.
    - apply quote_safe, H.
    - cbn [bracket_free] in H. rewrite forallb_forall in H. rewrite Forall_forall in IH.
      assert (Hall : Forall (fun s => safe s = true /\ starts_o s = false) (map stringify items)).
      { apply Forall_forall. intros x Hx. apply in_map_iff in Hx as (y & <- & Hy).
        apply (IH y Hy (H y Hy)). }
      cbn [stringify]. split; [|reflexivity].
      change (safe (String "[" (String.concat "," (map stringify items) ++ "]")) = true).
      apply safe_bracket.
      + apply safe_app; [|reflexivity]. apply safe_concat; [reflexivity|].
        eapply Forall_impl; [|exact Hall]. intros s [Hs _]. exact Hs.
      + apply starts_o_app; [|reflexivity]. apply starts_o_concat; [reflexivity|].
        eapply Forall_impl; [|exact Hall]. intros s [_ Hs]. exact Hs.
      + apply app_not_empty. discriminate.
    - cbn [bracket_free] in H. rewrite forallb_forall in H. rewrite Forall_forall in IH.
      cbn [stringify]. split; [|reflexivity].
      change (safe (String.concat "," (map (fun kv => quote (fst kv) ++ ":" ++ stringify (snd kv)) ps)
                    ++ "}") = true).
      apply safe_app; [|reflexivity]. apply safe_concat; [reflexivity|].
      apply Forall_forall. intros x Hx. apply in_map_iff in Hx as ([k y] & <- & Hy).
      apply H in Hy as Hb. apply andb_true_iff in Hb as [Hk Hv]. cbn [fst snd] in *.
      apply safe_app; [apply quote_safe, Hk|]. apply safe_app; [reflexivity|].
      apply (IH (k, y) Hy Hv).
  Qed.

Lemma stringify_safe' v : bracket_free v = true -> safe (stringify v) = true.
  Proof. intros H. apply (stringify_safe v H). Qed.

Lemma js_String_safe v : plain v = true -> bracket_free v = true -> safe (js_String v) = true.
  Proof.
    destruct v as [|[]|t|s|items|ps]; intros Hp Hb; try reflexivity; try discriminate.
    - apply no_br_safe, (num_text_ok t Hb).
    - apply no_br_safe, Hb.
  Qed.

Lemma assoc_in ps k v : assoc ps k = Some v -> In (k, v) ps.
  Proof.
    induction ps as [|[k' v'] ps IH]; cbn [assoc]; [discriminate|].
    destruct (String.eqb_spec k k') as [->|_]; intros H.
    - injection H as <-. left. reflexivity.
    - right. apply IH, H.
  Qed.

Lemma prop_bracket_free v k x : bracket_free v = true -> prop v k = Some x -> bracket_free x = true.
  Proof.
    destruct v as [| | | | |ps]; try discriminate. intros H E. apply assoc_in in E.
    cbn [bracket_free] in H. rewrite forallb_forall in H.
    apply H in E. apply andb_true_iff in E. apply E.
  Qed.

Lemma prop_str_no_br v k t : bracket_free v = true -> prop_str v k = Some t -> no_br t = true.
  Proof.
    unfold prop_str. intros H E. destruct (prop v k) as [x|] eqn:Ex; [|discriminate].
    destruct x; try discriminate. injection E as <-.
    apply (prop_bracket_free v k (JStr s) H Ex).
  Qed.

Lemma prop_plain_tool_names ps k x :
    plain_tool_names (JObj ps) = true -> assoc ps k = Some x -> plain_tool_names x = true.
  Proof.
    cbn [plain_tool_names]. intros H E. apply andb_true_iff in H as [_ H].
    rewrite forallb_forall in H. apply assoc_in in E. apply (H _ E).
  Qed.

Lemma block_text_safe b :
    bracket_free b = true -> plain_tool_names b = true -> safe (block_text b) = true.
  Proof.
    intros Hb Hp. unfold block_text.
    destruct (if type_is b "text" then prop_str b "text" else None) as [t|] eqn:E.
    { destruct (type_is b "text"); [|discriminate]. apply no_br_safe, (prop_str_no_br b "text" t Hb E). }
    destruct (type_is b "tool_use") eqn:Et.
    { apply safe_app; [reflexivity|]. apply safe_app; [|reflexivity].
      destruct b as [| | | | |ps]; try discriminate.
      cbn [plain_tool_names] in Hp. rewrite Et in Hp. apply andb_true_iff in Hp as [Hn _].
      unfold js_or. destruct (prop (JObj ps) "name") as [n|] eqn:En; [|reflexivity].
      destruct (js_truthy n); [|reflexivity].
      apply js_String_safe; [exact Hn|]. apply (prop_bracket_free _ _ _ Hb En). }
    destruct (type_is b "tool_result"); [reflexivity|].
    destruct (type_is b "image" || type_is b "image_url"); [reflexivity|].
    destruct (prop_str b "text") as [t|] eqn:E1; [apply no_br_safe, (prop_str_no_br b _ t Hb E1)|].
    destruct (prop_str b "content") as [t|] eqn:E2; [apply no_br_safe, (prop_str_no_br b _ t Hb E2)|].
    destruct b; try (apply stringify_safe'; exact Hb); apply js_String_safe; auto.
  Qed.

Lemma blocks_text_safe items :
    forallb bracket_free items = true -> forallb plain_tool_names items = true ->
    safe (blocks_text items) = true.
  Proof.
    rewrite !forallb_forall. intros Hb Hp. unfold blocks_text.
    apply safe_concat; [reflexivity|]. apply Forall_forall. intros x Hx.
    apply in_map_iff in Hx as (y & <- & Hy). apply block_text_safe; auto.
  Qed.

Lemma extractMessageText_safe v :
    bracket_free v = true -> plain_tool_names v = true -> safe (extractMessageText v) = true.
  Proof.
    intros Hb Hp. destruct v as [|[]|t|s|items|ps]; try reflexivity.
    - apply js_String_safe; auto.
    - apply no_br_safe, Hb.
    - apply blocks_text_safe; auto.
    - cbn [extractMessageText].
      destruct (assoc ps "text") as [x|] eqn:Ex.
      { assert (Hx : bracket_free x = true) by exact (prop_bracket_free (JObj ps) _ _ Hb Ex).
        destruct x; try (apply stringify_safe'; exact Hx). apply no_br_safe, Hx. }
      destruct (assoc ps "content") as [x|] eqn:Ex'.
      { assert (Hx : bracket_free x = true) by exact (prop_bracket_free (JObj ps) _ _ Hb Ex').
        destruct x; try (apply stringify_safe'; exact Hx).
        - apply no_br_safe, Hx.
        - apply blocks_text_safe; [exact Hx|]. apply (prop_plain_tool_names ps _ _ Hp Ex'). }
      apply stringify_safe', Hb.
  Qed.

End CaptureFacts.

Module BudgetFacts.
  Import Capture Budget.
  Local Open Scope Z_scope.

Lemma total_tokens_app cfg l1 l2 :
    total_tokens cfg (l1 ++ l2)%list = total_tokens cfg l1 + total_tokens cfg l2.
  Proof. induction l1 as [|m l1 IH]; simpl; [reflexivity|]. rewrite IH. lia. Qed.

Lemma total_tokens_rev cfg l : total_tokens cfg (rev l) = total_tokens cfg l.
  Proof.
    induction l as [|m l IH]; simpl; [reflexivity|].
    rewrite total_tokens_app, IH. simpl. lia.
  Qed.

  (** The loop takes a prefix of the newest-first list, prepends it
      reversed and never goes over the budget. *)
Lemma accumulate_spec cfg rs sel tc :
    exists k,
      fst (accumulate cfg rs sel tc) = (rev (firstn k rs) ++ sel)%list /\
      snd (accumulate cfg rs sel tc) = tc + total_tokens cfg (firstn k rs) /\
      (tc <= maxConversationTokens cfg -> snd (accumulate cfg rs sel tc) <= maxConversationTokens cfg).
  Proof.
    revert sel tc. induction rs as [|m rs IH]; intros sel tc.
    - exists 0%nat. simpl. repeat split; [lia|]. auto.
    - cbn [accumulate]. destruct (tc + msgTokens cfg m >? maxConversationTokens cfg) eqn:E.
      + exists 0%nat. simpl. repeat split; [lia|]. auto.
      + rewrite Z.gtb_ltb, Z.ltb_ge in E.
        destruct (IH (m :: sel) (tc + msgTokens cfg m)) as (k & H1 & H2 & H3).
        exists (S k). cbn [firstn rev total_tokens fold_right].
        split; [rewrite H1, <- app_assoc; reflexivity|].
        split; [rewrite H2; fold (total_tokens cfg (firstn k rs)); lia|].
        intros _. apply H3, E.
  Qed.

Lemma slice_suffix {A} (l : Datatypes.list A) start : exists p, l = (p ++ slice l start)%list.
  Proof. unfold slice. eexists. symmetry. apply firstn_skipn. Qed.

Lemma slice_neg_length {A} (l : Datatypes.list A) n :
    1 <= n -> n < Z.of_nat (length l) -> Z.of_nat (length (slice l (- n))) = n.
  Proof.
    intros H1 H2. unfold slice.
    replace (- n <? 0) with true by (symmetry; apply Z.ltb_lt; lia).
    rewrite length_skipn. rewrite Z.max_l by lia. lia.
  Qed.
End BudgetFacts.

Module CaptureSlotFacts.
  Import SlotDB Capture AutoCapture.

Lemma set_keeps_ids db u a inp now now_ms db' r' :
    set db u a inp now now_ms = Some (db', r') ->
    forall x, In x db -> exists y, In y db' /\ id y = id x.
  Proof.
    unfold set. intros H x Hx.
    destruct (select_key db u a (in_key inp)) as [e|].
    - match type of H with
      | match update_row db ?r with _ => _ end = _ => destruct (update_row db r) as [t|] eqn:E
      end; [|discriminate].
      injection H as <- _. unfold update_row in E.
      destruct (existsb _ db); [discriminate|]. injection E as <-.
      eexists. split; [apply in_map, Hx|]. cbv beta.
      destruct (String.eqb_spec (id x) (id e)) as [He|_]; [simpl; symmetry; exact He|reflexivity].
    - match type of H with
      | match insert_row db ?r with _ => _ end = _ => destruct (insert_row db r) as [t|] eqn:E
      end; [|discriminate].
      injection H as <- _. unfold insert_row in E.
      destruct (existsb _ db); [discriminate|]. injection E as <-.
      exists x. split; [apply in_or_app; left; exact Hx|reflexivity].
  Qed.

Lemma storeSlots_keeps_ids db u a m facts now now_ms :
    forall x, In x db -> exists y, In y (storeSlots db u a m facts now now_ms) /\ id y = id x.
  Proof.
    revert db. induction facts as [|f rest IH]; intros db x Hx; cbn [storeSlots].
    - exists x. auto.
    - destruct (negb _); [apply IH, Hx|].
      destruct (set db u a _ now now_ms) as [[db' r']|] eqn:E; [|apply IH, Hx].
      destruct (set_keeps_ids _ _ _ _ _ _ _ _ E x Hx) as (y & Hy & Hid).
      destruct (IH db' y Hy) as (z & Hz & Hz'). exists z. split; [exact Hz|congruence].
  Qed.
End CaptureSlotFacts.

Section SlotTheorems.
  Import SlotDB SlotFacts StateFacts AutoRecall RecallFacts.
  Import Samples.
  Local Open Scope list_scope.

  (** C2: after any sequence of SlotDB operations on a fresh database, every
      scope [(u, a)] holds at most one row per key; and every successful
      [set] either rewrites the existing row of [(u, a, key)] in place, with
      version [+1], the new value, category, source, confidence, expires_at
      and [updated_at = now], or, when there is none, appends a row at
      version 1. *)
Theorem slot_set_unique_versioned :
    (forall ops u a k,
        length (filter (fun r => in_scope u a r && String.eqb (key r) k) (run_ops [] ops)) <= 1)%nat
    /\
    (forall ops u a inp now ms db' r,
        set (run_ops [] ops) u a inp now ms = Some (db', r) ->
        set_outcome (run_ops [] ops) u a inp now db' r).
  Proof.
    split.
    - intros ops u a k. pose proof (run_ops_wf ops [] wf_nil) as [_ Hsk].
      apply (NoDup_map_const_length _ _ skey _ (u, a, k)).
      + now apply NoDup_map_filter.
      + intros x Hx. apply filter_In in Hx as [_ Hx].
        apply andb_true_iff in Hx as [Hs Hk]. unfold in_scope in Hs.
        apply andb_true_iff in Hs as [Hu Ha]. apply String.eqb_eq in Hu, Ha, Hk.
        unfold skey. now subst.
    - intros ops u a inp now ms db' r. apply set_spec. apply run_ops_wf, wf_nil.
  Qed.

  (** C4: every read of SlotDB ([get] by key, by category or of all slots,
      [list], [getCurrentState]) first deletes the expired rows of the scope:
      afterwards no row of [(u, a)] with [expires_at < now] is left in the
      table or in the result; in particular [get] by key of an expired slot
      returns [null] and the row is gone. *)
Theorem reads_clean_expired :
    (forall db u a now inp,
        let '(db', res) := get db u a inp now in
        unexpired_in u a now db' /\
        forall r, In r (get_rows res) ->
          In r db' /\ in_scope u a r = true /\ expired_at now r = false)
    /\
    (forall db u a now inp,
        let '(db', rs) := list db u a inp now in
        unexpired_in u a now db' /\
        forall r, In r rs -> In r db' /\ in_scope u a r = true /\ expired_at now r = false)
    /\
    (forall db u a now,
        let '(db', st) := getCurrentState db u a now in
        unexpired_in u a now db' /\
        forall c m k v, In (c, m) st -> In (k, v) m ->
          exists r, In r db' /\ in_scope u a r = true /\ expired_at now r = false /\
                    category r = c /\ key r = k /\ value r = v)
    /\
    (forall ops u a now r cat,
        In r (run_ops [] ops) -> in_scope u a r = true -> key r <> "" ->
        expired_at now r = true ->
        let '(db', res) := get (run_ops [] ops) u a (mkSlotGetInput (Some (key r)) cat) now in
        res = GOne None /\ ~ In r db').
  Proof.
    split; [|split; [|split]].
    - intros db u a now inp.
      destruct (get db u a inp now) as [db' res] eqn:E.
      pose proof (get_table db u a inp now) as Ht. rewrite E in Ht. simpl in Ht. subst db'.
      split; [apply unexpired_clean|].
      intros r Hr. pose proof (get_rows_spec db u a inp now r) as H.
      rewrite E in H. destruct (H Hr) as [H1 H2]. repeat split; auto.
      eapply unexpired_clean; eauto.
    - intros db u a now inp. simpl. split; [apply unexpired_clean|].
      intros r Hr. apply in_sorted_scope in Hr as [H1 H2]. repeat split; auto.
      eapply unexpired_clean; eauto.
    - intros db u a now. simpl. split; [apply unexpired_clean|].
      intros c m k v H1 H2.
      destruct (state_of_rows_entries _ _ _ _ _ H1 H2) as (r & Hr & Hc & Hk & Hv).
      apply in_sorted_scope' in Hr as [Hr Hs]. exists r. repeat split; auto.
      eapply unexpired_clean; eauto.
    - intros ops u a now r cat Hin Hs Hk Hexp.
      pose proof (run_ops_wf ops [] wf_nil) as Hwf.
      unfold get. simpl. destruct (String.eqb (key r) "") eqn:Ek.
      { apply String.eqb_eq in Ek. contradiction. }
      split.
      + unfold select_key. rewrite find_none_all; [reflexivity|].
        intros x Hx. destruct (in_scope u a x && String.eqb (key x) (key r)) eqn:Ex; auto.
        apply andb_true_iff in Ex as [Hsx Hkx]. apply String.eqb_eq in Hkx.
        apply cleanExpired_In in Hx as [Hx Hnx].
        assert (x = r) as -> by (eapply scope_key_unique; eauto).
        rewrite Hs, Hexp in Hnx. discriminate.
      + intros Hx. apply cleanExpired_In in Hx as [_ Hnx].
        rewrite Hs, Hexp in Hnx. discriminate.
  Qed.

  (** C5 (amended): [getCurrentState] maps [category -> key -> value] for
      exactly the live (unexpired) slots of the scope, keys that begin with
      an underscore included; skipping them is left to its callers. *)
Theorem getCurrentState_live_slots :
    forall ops u a now c k v,
      StateFacts.get2 (snd (getCurrentState (run_ops [] ops) u a now)) c k = Some v <->
      exists r, In r (run_ops [] ops) /\ in_scope u a r = true /\
                expired_at now r = false /\ category r = c /\ key r = k /\ value r = v.
  Proof.
    intros ops u a now c k v. apply current_state_get2, run_ops_wf, wf_nil.
  Qed.

  (** C3: in the Current State merge of [gatherRecallContext] over the
      scopes private [(userId, agentId)], team [(userId, "__team__")] and
      public [("__public__", "__public__")], a key beginning with an
      underscore is never emitted; for any other [(category, key)] the
      emitted value is the value of a live slot at [(category, key)] in one
      of these scopes whose [updated_at] is not exceeded by any other such
      slot (freshness wins), and nothing is emitted when there is no such
      slot. *)
Theorem recall_merge_freshest :
    forall ops userId agentId now c k,
      let db := run_ops [] ops in
      let merged := snd (gatherCurrentState db userId agentId now) in
      if starts_with "_" k then get2 merged c k = None
      else
        match get2 merged c k with
        | Some v =>
            exists r, live_in db now (scopes userId agentId) c k r /\ value r = v /\
              forall r', live_in db now (scopes userId agentId) c k r' ->
                         ts_lt (updated_at r) (updated_at r') = false
        | None => forall r, ~ live_in db now (scopes userId agentId) c k r
        end.
  Proof.
    intros ops userId agentId now c k db merged.
    assert (Hwf : wf db) by apply run_ops_wf, wf_nil.
    pose proof (merge_scopes_inv db now (scopes userId agentId) [] (db, ([], []))
                  Hwf (merge_inv_init db now Hwf)) as Hinv.
    subst merged. unfold gatherCurrentState.
    destruct (fold_left (merge_scope now) (scopes userId agentId) (db, ([], [])))
      as [dbf [ms mt]] eqn:E.
    simpl in Hinv. destruct Hinv as (_ & _ & _ & _ & Hund & Hmain). simpl.
    destruct (starts_with "_" k) eqn:Hk.
    - specialize (Hund c k Hk). unfold mlook in Hund. simpl in Hund. congruence.
    - destruct (Hmain c k Hk) as [[Hnone Hno]|(r & Hr & Hlook & Hmax)];
        unfold mlook in *; simpl in *.
      + injection Hnone as -> _. exact Hno.
      + injection Hlook as -> _. exists r. auto.
  Qed.

  (** Scenario "version bump": the second [set] of [profile.name] rewrites
      the row in place at version 2. *)
Lemma slot_set_unique_versioned_witness :
    exists db' r,
      set (run_ops [] [OpSet "u" "a" name_v1 t_day1 "1"]) "u" "a" name_v2 t_day2 "2"
        = Some (db', r) /\
      set_outcome (run_ops [] [OpSet "u" "a" name_v1 t_day1 "1"]) "u" "a" name_v2 t_day2 db' r /\
      version r = 2%Z.
  Proof.
    eexists _, _. split; [reflexivity|]. split.
    - apply (proj2 slot_set_unique_versioned
               [OpSet "u" "a" name_v1 t_day1 "1"] "u" "a" name_v2 t_day2 "2").
      reflexivity.
    - reflexivity.
  Defined.

  (** Scenario "TTL cleanup": a slot whose [expires_at] lies in the past is
      not returned by [get] and its row is deleted. *)
Lemma reads_clean_expired_witness :
    exists r,
      In r (run_ops [] [OpSet "u" "a" temp_x t_day0 "1"]) /\ in_scope "u" "a" r = true /\
      key r <> "" /\ expired_at t_day1 r = true /\
      (let '(db', res) := get (run_ops [] [OpSet "u" "a" temp_x t_day0 "1"]) "u" "a"
                              (mkSlotGetInput (Some (key r)) None) t_day1 in
       res = GOne None /\ ~ In r db').
  Proof.
    eexists. split; [vm_compute; left; reflexivity|].
    split; [reflexivity|]. split; [vm_compute; congruence|]. split; [reflexivity|].
    apply (proj2 (proj2 (proj2 reads_clean_expired))); [vm_compute; left; reflexivity
      | reflexivity | vm_compute; congruence | reflexivity].
  Defined.

  (** C5 counterexample: a slot whose key begins with an underscore is
      present in the mapping returned by [getCurrentState]. *)
Lemma getCurrentState_keeps_underscore_key :
    starts_with "_" "_autocapture_hash" = true /\
    StateFacts.get2
      (snd (getCurrentState (run_ops [] [OpSet "u" "a" hash_slot t_day1 "1"]) "u" "a" t_day1))
      "custom" "_autocapture_hash" = Some "7".
  Proof. split; vm_compute; reflexivity. Qed.
  (** Scenario "freshness wins": the team copy of [profile.name], written
      later, is emitted over the private one. *)
Example recall_merge_team_newer :
    get2 (snd (gatherCurrentState
                 (run_ops [] [OpSet "u" "a" name_v1 t_day1 "1";
                              OpSet "u" "__team__" name_v2 t_day2 "2"]) "u" "a" t_day2))
         "profile" "profile.name" = Some "2".
  Proof. vm_compute. reflexivity. Qed.
End SlotTheorems.

Module GraphFacts.
  Import GraphDB.
  Local Open Scope list_scope.

Lemma filter_length_lt {A} (p : A -> bool) (l : Datatypes.list A) :
    (length (filter p l) < length l)%nat <-> exists x, In x l /\ p x = false.
  Proof.
    induction l as [|y l IH]; simpl.
    - split; [lia|]. intros (x & [] & _).
    - destruct (p y) eqn:Ey; simpl.
      + rewrite <- Nat.succ_lt_mono, IH. split.
        * intros (x & Hx & Hp). eauto.
        * intros (x & [<-|Hx] & Hp); [congruence|eauto].
      + split; [|intros _; pose proof (filter_length_le p l) as H; simpl; lia].
        intros _. exists y. auto.
  Qed.

Lemma filter_single {A B} (g : A -> B) (p : A -> bool) (l : Datatypes.list A) x :
    NoDup (map g l) -> In x l -> p x = true ->
    (forall y, In y l -> p y = true -> g y = g x) -> filter p l = [x].
  Proof.
    induction l as [|y l IH]; simpl; [tauto|].
    intros Hnd Hx Hp Hg. inversion Hnd as [|? ? Hn Hnd']; subst.
    destruct (p y) eqn:Ey.
    - assert (Hyx : g y = g x) by auto.
      destruct Hx as [<-|Hx].
      + f_equal. destruct (filter p l) as [|z l'] eqn:E; [reflexivity|].
        exfalso. assert (Hz : In z (filter p l)) by (rewrite E; left; reflexivity).
        apply filter_In in Hz as [Hz Hpz]. apply Hn. rewrite <- (Hg z (or_intror Hz) Hpz).
        now apply in_map.
      + exfalso. apply Hn. rewrite Hyx. now apply in_map.
    - destruct Hx as [<-|Hx]; [congruence|]. apply IH; auto.
  Qed.

Lemma same_triple_eq input r1 r2 :
    same_triple input r1 = true -> same_triple input r2 = true -> triple r1 = triple r2.
  Proof.
    unfold same_triple, triple. intros H1 H2.
    apply andb_true_iff in H1 as [H1 H1c], H2 as [H2 H2c].
    apply andb_true_iff in H1 as [H1a H1b], H2 as [H2a H2b].
    apply String.eqb_eq in H1a, H1b, H1c, H2a, H2b, H2c. congruence.
  Qed.

Lemma filter_map_same {A} (p : A -> bool) (f : A -> A) (l : Datatypes.list A) :
    (forall x, p x = true -> p (f x) = true) ->
    filter p (map (fun x => if p x then f x else x) l) = map f (filter p l).
  Proof.
    intros Hf. induction l as [|x l IH]; simpl; [reflexivity|].
    destruct (p x) eqn:E; simpl; [rewrite Hf by exact E; simpl; f_equal|rewrite E]; exact IH.
  Qed.
End GraphFacts.

Section GraphTheorems.
  Import GraphDB GraphFacts.
  Import Samples.
  Local Open Scope list_scope.

  (** C9: [deleteEntity(u, a, e)] removes exactly the entity row [e] of
      scope [(u, a)] and the relationship rows of that scope whose source or
      target is [e]; every other row of both tables stays, in order; it
      returns [true] iff an entity row was removed. *)
Theorem deleteEntity_exact :
    forall g u a e,
      let '(g', removed) := deleteEntity g u a e in
      (forall x, In x (entities g') <->
                 In x (entities g) /\ ~ (e_id x = e /\ entity_in_scope u a x = true)) /\
      (forall r, In r (relationships g') <->
                 In r (relationships g) /\
                 ~ ((source_entity_id r = e \/ target_entity_id r = e) /\
                    rel_in_scope u a r = true)) /\
      (removed = true <->
       exists x, In x (entities g) /\ e_id x = e /\ entity_in_scope u a x = true).
  Proof.
    intros g u a e. simpl. split; [|split].
    - intros x. rewrite filter_In. rewrite negb_true_iff, andb_false_iff, <- not_true_iff_false.
      rewrite String.eqb_eq. destruct (entity_in_scope u a x); intuition congruence.
    - intros r. rewrite filter_In. rewrite negb_true_iff, andb_false_iff, orb_false_iff.
      rewrite <- !not_true_iff_false, !String.eqb_eq.
      destruct (rel_in_scope u a r); split; intros H; intuition (try congruence).
    - rewrite Nat.ltb_lt, filter_length_lt. split.
      + intros (x & Hx & Hp). apply negb_false_iff, andb_true_iff in Hp as [H1 H2].
        apply String.eqb_eq in H1. eauto.
      + intros (x & Hx & H1 & H2). exists x. split; auto.
        apply negb_false_iff, andb_true_iff. rewrite String.eqb_eq. auto.
  Qed.
  (** C10: when the triple [(source, target, relation_type)] of the input
      is already held by a row of a well-formed table (the UNIQUE triple
      holds), [createRelationship] leaves exactly one row with that triple:
      the old row, same id and scope, with the new weight, properties and
      [created_at = now]; every other row stays; the returned object carries
      the freshly generated id, which is not the surviving row's id and
      identifies no stored row. *)
Theorem createRelationship_conflict_keeps_row_id :
    forall rels u a input now uuid old,
      NoDup (map triple rels) -> ~ In uuid (map r_id rels) ->
      In old rels -> same_triple input old = true ->
      exists rels' ret,
        createRelationship rels u a input now uuid = Some (rels', ret) /\
        filter (same_triple input) rels' =
          [mkRelationshipRow (r_id old) (source_entity_id old) (target_entity_id old)
             (relation_type old) (weight ret) (r_properties ret)
             (r_scope_user_id old) (r_scope_agent_id old) now] /\
        weight ret = match rc_weight input with Some w => w | None => 1%Q end /\
        r_properties ret = match rc_properties input with Some p => p | None => "{}" end /\
        r_created_at ret = now /\
        r_id ret = uuid /\ r_id ret <> r_id old /\ ~ In (r_id ret) (map r_id rels') /\
        (forall r, same_triple input r = false -> (In r rels' <-> In r rels)).
  Proof.
    intros rels u a input now uuid old Hnd Hfresh Hold Htr.
    unfold createRelationship.
    assert (Hex : existsb (same_triple input) rels = true)
      by (apply existsb_exists; eauto).
    rewrite Hex. eexists _, _. split; [reflexivity|]. simpl.
    split.
    { rewrite filter_map_same.
      - rewrite (filter_single triple _ _ old); auto.
        intros y Hy Hpy. eapply same_triple_eq; eauto.
      - intros x Hx. exact Hx. }
    split; [reflexivity|]. split; [reflexivity|]. split; [reflexivity|].
    split; [reflexivity|].
    split; [intros E; apply Hfresh; rewrite E; now apply in_map|].
    split.
    { rewrite map_map. simpl. intros Hin. apply Hfresh.
      erewrite map_ext; [exact Hin|]. intros x. simpl. destruct (same_triple input x); reflexivity. }
    intros r Hr. rewrite in_map_iff. split.
    - intros (x & Hx & Hin). destruct (same_triple input x) eqn:E; [|congruence].
      subst r. exfalso. unfold same_triple in *. simpl in Hr. congruence.
    - intros Hin. exists r. rewrite Hr. auto.
  Qed.

Lemma createRelationship_conflict_keeps_row_id_witness :
    exists rels' ret,
      createRelationship [edge_ab] "u" "a" input_ab "2026-01-02T00:00:00.000Z" "e2"
        = Some (rels', ret) /\
      filter (same_triple input_ab) rels' =
        [mkRelationshipRow "e1" "a" "b" "uses" (weight ret) (r_properties ret) "u" "a"
           "2026-01-02T00:00:00.000Z"] /\
      r_id ret = "e2".
  Proof.
    destruct (createRelationship_conflict_keeps_row_id [edge_ab] "u" "a" input_ab
                "2026-01-02T00:00:00.000Z" "e2" edge_ab)
      as (rels' & ret & H1 & H2 & _ & _ & _ & H6 & _).
    - simpl. repeat constructor. intros [].
    - simpl. intros [H|[]]. discriminate.
    - left. reflexivity.
    - reflexivity.
    - exists rels', ret. split; [exact H1|]. split; [exact H2|exact H6].
  Defined.
End GraphTheorems.

Section CaptureTheorems.
  Import Capture CaptureFacts.
  Import Samples.

  (** C7 (amended). For every JSON value whose strings and property names
      contain no ['['] and in which every [tool_use] block has a [name] that is
      not an object or an array, [extractMessageText] returns a string without
      the substring ["[object Object]"]: arrays and objects are serialised
      with [JSON.stringify], never with [String]. *)
Theorem extractMessageText_no_object_object (v : json) :
    bracket_free v = true -> plain_tool_names v = true ->
    contains "[object Object]" (extractMessageText v) = false.
  Proof.
    intros Hb Hp. apply safe_no_object_object, extractMessageText_safe; assumption.
  Qed.

Lemma extractMessageText_no_object_object_witness :
    bracket_free sample_content = true /\ plain_tool_names sample_content = true /\
    contains "[object Object]" (extractMessageText sample_content) = false.
  Proof.
    split; [reflexivity|]. split; [reflexivity|].
    apply extractMessageText_no_object_object; reflexivity.
  Defined.

  (** C7 fails as stated: text is passed through as it is, so a string that
      holds ["[object Object]"] is returned with it, and joining the blocks
      with a space can form it from two harmless pieces. *)
Lemma extractMessageText_passes_string_through :
    extractMessageText (JStr "[object Object]") = "[object Object]" /\
    contains "[object Object]" (extractMessageText (JArr [JStr "[object"; JStr "Object]"])) = true.
  Proof. split; reflexivity. Qed.

  (** A [tool_use] block whose [name] is an object is printed through
      [String], which gives ["[object Object]"]. *)
Example extractMessageText_tool_name_object :
    extractMessageText (JArr [JObj [("type", JStr "tool_use"); ("name", JObj [])]])
      = "[Tool: [object Object]]".
  Proof. reflexivity. Qed.
End CaptureTheorems.

Section BudgetTheorems.
  Import Capture Budget BudgetFacts.
  Import Samples.
  Local Open Scope Z_scope.

  (** C8 (with a cap of at least one message and a non-negative budget).
      The selection holds only user and assistant messages, is a suffix of
      the conversation messages in their original order, has at most
      [absoluteMaxMessages] messages, and its estimated token sum, which is
      the reported [estimatedTokens], is at most [maxConversationTokens]. *)
Theorem selectMessagesWithinBudget_bounds (messages : Datatypes.list ConversationMessage)
    (config : ContextWindowConfig) :
    1 <= absoluteMaxMessages config -> 0 <= maxConversationTokens config ->
    let selected := fst (selectMessagesWithinBudget messages config) in
    Forall (fun m => role m = "user" \/ role m = "assistant") selected /\
    (exists older, filter is_conversation messages = (older ++ selected)%list) /\
    Z.of_nat (length selected) <= absoluteMaxMessages config /\
    snd (selectMessagesWithinBudget messages config) = total_tokens config selected /\
    total_tokens config selected <= maxConversationTokens config.
  Proof.
    intros Hcap Hmax. unfold selectMessagesWithinBudget.
    set (filtered := filter is_conversation messages).
    set (capped := if Z.of_nat (length filtered) >? absoluteMaxMessages config
                   then slice filtered (- absoluteMaxMessages config) else filtered).
    assert (Hsuf : exists p, filtered = (p ++ capped)%list).
    { unfold capped. destruct (_ >? _); [apply slice_suffix|exists []; reflexivity]. }
    assert (Hlen : Z.of_nat (length capped) <= absoluteMaxMessages config).
    { unfold capped. destruct (_ >? _) eqn:E.
      - rewrite Z.gtb_ltb, Z.ltb_lt in E. rewrite slice_neg_length; lia.
      - rewrite Z.gtb_ltb, Z.ltb_ge in E. exact E. }
    destruct (accumulate_spec config (rev capped) [] 0) as (k & H1 & H2 & H3).
    rewrite firstn_rev, rev_involutive, app_nil_r in H1.
    rewrite firstn_rev, total_tokens_rev in H2.
    cbv zeta. rewrite H1. set (j := (length capped - k)%nat) in *.
    destruct Hsuf as [p Hp].
    assert (Hsel : filtered = ((p ++ firstn j capped) ++ skipn j capped)%list)
      by (rewrite <- app_assoc, firstn_skipn; exact Hp).
    split; [|split; [|split; [|split]]].
    - apply Forall_forall. intros x Hx.
      assert (Hin : In x filtered) by (rewrite Hsel; apply in_or_app; right; exact Hx).
      apply filter_In in Hin as [_ Hc]. unfold is_conversation in Hc.
      apply orb_true_iff in Hc as [Hc|Hc]; apply String.eqb_eq in Hc; auto.
    - exists (p ++ firstn j capped)%list. exact Hsel.
    - rewrite length_skipn. lia.
    - rewrite H2. lia.
    - rewrite H2 in H3. specialize (H3 Hmax). lia.
  Qed.

Lemma selectMessagesWithinBudget_bounds_witness :
    fst (selectMessagesWithinBudget sample_messages DEFAULT_CONTEXT_WINDOW) = tl sample_messages /\
    total_tokens DEFAULT_CONTEXT_WINDOW
      (fst (selectMessagesWithinBudget sample_messages DEFAULT_CONTEXT_WINDOW)) <= 12000.
  Proof.
    split; [reflexivity|].
    apply (selectMessagesWithinBudget_bounds sample_messages DEFAULT_CONTEXT_WINDOW);
      simpl; lia.
  Defined.

  (** C8, stated for every configuration, fails for
      [absoluteMaxMessages = 0]: [filtered.slice(-0)] is [filtered.slice(0)],
      the whole list, so a one-message conversation gives a selection of one
      message. (The only caller, [extractFacts], always passes
      [DEFAULT_CONTEXT_WINDOW.absoluteMaxMessages = 200].) *)
Lemma selectMessagesWithinBudget_zero_cap :
    let config := mkContextWindowConfig 12000 4 0 in
    let selected := fst (selectMessagesWithinBudget
                           [mkConversationMessage "user" (JStr "hello")] config) in
    selected = [mkConversationMessage "user" (JStr "hello")] /\
    Z.of_nat (length selected) > absoluteMaxMessages config.
  Proof. split; reflexivity. Qed.

  (** With a negative budget the loop stops at once, and the empty
      selection's sum [0] is above the budget. *)
Example selectMessagesWithinBudget_negative_budget :
    let config := mkContextWindowConfig (-1) 4 200 in
    fst (selectMessagesWithinBudget sample_messages config) = nil /\
    total_tokens config nil > maxConversationTokens config.
  Proof. split; reflexivity. Qed.
End BudgetTheorems.

Section AutoCaptureTheorems.
  Import SlotDB Capture AutoCapture CaptureSlotFacts.
  Import Samples.

  (** C1 (what the code does). The [agent_end] handler applies no slot
      removals: the extraction it consumes has no [slot_removals] (any in the
      model's reply are dropped), and its slot writes never delete a row:
      every row of the table before the writes still has its id afterwards. *)
Theorem agent_end_applies_no_removals (db : table) (userId agentId : string)
    (minConfidence : Q) (reply : LLMReply) (now : timestamp) (now_ms : string) :
    let db' := agent_end_slots db userId agentId minConfidence (extractWithLLM reply) now now_ms in
    db' = agent_end_slots db userId agentId minConfidence
            (extractWithLLM (mkLLMReply (reply_slot_updates reply) [])) now now_ms /\
    (forall r, In r db -> exists r', In r' db' /\ id r' = id r).
  Proof.
    cbv zeta. split; [reflexivity|].
    unfold agent_end_slots. apply storeSlots_keeps_ids.
  Qed.

  (** C1 fails: the stale slot is not deleted and recreated; the one row
      keeps its id and is updated in place to version 2. *)
Lemma agent_end_stale_epic_version_2 :
    exists r,
      agent_end_slots [epic_v1] "u" "a" (7 # 10) (extractWithLLM epic_reply)
        "2026-01-02T00:00:00.000Z" "1767312000000" = [r] /\
      id r = id epic_v1 /\ value r = stringify (JStr "Phase 11") /\ version r = 2%Z.
  Proof. eexists. split; [reflexivity|]. repeat split; reflexivity. Qed.
End AutoCaptureTheorems.

Section EmbeddingTheorems.
  Import Capture Embedding.

  (** C6 (amended). [embed] returns a vector exactly when the service
      answers with an ok status and a JSON body whose [embedding] is an
      array, and then it returns that array; every other outcome rejects:
      an HTTP error status with ["Embedding API error"], the timeout with
      ["Embedding request timed out"], other failures with their own error.
      There is no fallback vector. *)
Theorem embed_rejects_on_failure :
    (forall outcome v,
       embed outcome = inr v <->
       exists status data, outcome = Response true status (Some data) /\
                           prop data "embedding" = Some (JArr v)) /\
    (forall status body, embed (Response false status body) = inl (ApiError status)) /\
    embed Aborted = inl TimedOut /\
    (forall m, embed (NetworkError m) = inl (Rethrown m)).
  Proof.
    split; [|split; [|split]]; [|reflexivity..].
    intros outcome v. split.
    - destruct outcome as [[] status [data|]| |m]; cbn; try discriminate.
      destruct data as [| | | | |ps]; try discriminate;
        destruct (prop _ "embedding") as [[]|] eqn:E; try discriminate;
        intros H; injection H as <-; eauto.
    - intros (status & data & -> & E). cbn.
      destruct data; try discriminate; cbn in E |- *; rewrite E; reflexivity.
  Qed.

  (** C6 fails: a [503] answer is not turned into a pseudo-embedding; the
      call rejects. *)
Lemma embed_http_error_rejects :
    embed (Response false 503 None) = inl (ApiError 503).
  Proof. reflexivity. Qed.
End EmbeddingTheorems.

Module GraphExtraFacts.
  Import GraphDB GraphFacts.
  Local Open Scope list_scope.

Section Sorting.
  Variable A : Type.
  Variable le : A -> A -> bool.
  Hypothesis le_total : forall x y, le x y = false -> le y x = true.

Lemma HdRel_insert_by x y l :
    le y x = true -> HdRel (fun p q => le p q = true) y l ->
    HdRel (fun p q => le p q = true) y (insert_by le x l).
  Proof.
    intros Hyx H. destruct l as [|z l]; simpl.
    - constructor. exact Hyx.
    - destruct (le x z); constructor; [exact Hyx|]. inversion H. assumption.
  Qed.

Lemma Sorted_insert_by x l :
    Sorted (fun p q => le p q = true) l -> Sorted (fun p q => le p q = true) (insert_by le x l).
  Proof.
    induction 1 as [|z l Hs IH Hd]; simpl.
    - repeat constructor.
    - destruct (le x z) eqn:E.
      + constructor; [constructor; assumption|constructor; exact E].
      + constructor; [exact IH|]. apply HdRel_insert_by; [now apply le_total|exact Hd].
  Qed.

Lemma Sorted_sort_by l : Sorted (fun p q => le p q = true) (sort_by le l).
  Proof. induction l as [|x l IH]; simpl; [constructor|]. now apply Sorted_insert_by. Qed.
End Sorting.

Lemma Sorted_weaken {A} (R R' : A -> A -> Prop) l :
    (forall x y, R x y -> R' x y) -> Sorted R l -> Sorted R' l.
  Proof.
    intros H. induction 1 as [|x l Hs IH Hd]; constructor; auto.
    destruct Hd; constructor; auto.
  Qed.

Lemma by_weight_desc_total x y : by_weight_desc x y = false -> by_weight_desc y x = true.
  Proof.
    unfold by_weight_desc. intros H. apply Qle_bool_iff. apply Qlt_le_weak, Qnot_le_lt.
    rewrite <- Qle_bool_iff. congruence.
  Qed.

Lemma by_updated_desc_total x y : by_updated_desc x y = false -> by_updated_desc y x = true.
  Proof.
    unfold by_updated_desc. intros H.
    destruct (String.leb_total (e_updated_at x) (e_updated_at y)); congruence.
  Qed.

Lemma getEntity_some ents u a id e :
    getEntity ents u a id = Some e ->
    In e ents /\ e_id e = id /\ entity_in_scope u a e = true.
  Proof.
    unfold getEntity. intros H. apply find_some in H as [H1 H2].
    apply andb_true_iff in H2 as [H2 H3]. apply String.eqb_eq in H2. auto.
  Qed.

Lemma find_map_same {A} (p : A -> bool) (f : A -> A) l :
    (forall x, p (f x) = p x) -> find p (map f l) = option_map f (find p l).
  Proof.
    intros Hf. induction l as [|x l IH]; simpl; [reflexivity|].
    rewrite Hf. destruct (p x); [reflexivity|exact IH].
  Qed.

Lemma filter_map_other {A} (p : A -> bool) (f : A -> A) l :
    (forall x, p (f x) = p x) ->
    filter (fun x => negb (p x)) (map (fun x => if p x then f x else x) l) =
    filter (fun x => negb (p x)) l.
  Proof.
    intros Hf. induction l as [|x l IH]; simpl; [reflexivity|].
    destruct (p x) eqn:E; simpl.
    - rewrite Hf, E. exact IH.
    - rewrite E. simpl. f_equal. exact IH.
  Qed.

Lemma find_none_iff {A} (p : A -> bool) l :
    find p l = None <-> forall x, In x l -> p x = false.
  Proof.
    split; [intros H x Hx; eapply find_none; eauto|apply StateFacts.find_none_all].
  Qed.

  (** Keys of a JS [Map] after [set]. *)
Lemma in_keys_obj_set_self {V} (o : Datatypes.list (string * V)) k v :
    In k (map fst (SlotDB.obj_set o k v)).
  Proof.
    induction o as [|[k1 v1] o IH]; simpl; [auto|].
    destruct (String.eqb k k1); simpl; auto.
  Qed.

Lemma in_keys_obj_set_old {V} (o : Datatypes.list (string * V)) k v x :
    In x (map fst o) -> In x (map fst (SlotDB.obj_set o k v)).
  Proof.
    induction o as [|[k1 v1] o IH]; simpl; [tauto|].
    destruct (String.eqb k k1) eqn:E; simpl.
    - apply String.eqb_eq in E. subst. tauto.
    - tauto.
  Qed.

Lemma hd_keys_obj_set {V} (o : Datatypes.list (string * V)) k v x :
    hd_error (map fst o) = Some x -> hd_error (map fst (SlotDB.obj_set o k v)) = Some x.
  Proof.
    destruct o as [|[k1 v1] o]; simpl; [discriminate|].
    destruct (String.eqb k k1) eqn:E; simpl; [|auto].
    apply String.eqb_eq in E. subst. auto.
  Qed.

Section Traverse.
  Variables (g : graph) (u a : string).

  (** The relationship map: stored rows of the scope, keyed by id, with an
      endpoint among the keys [ks] of the entity map. *)
Definition rel_map_ok (ks : Datatypes.list string) (rmap : Datatypes.list (string * RelationshipRow)) : Prop :=
    (forall k r, In (k, r) rmap ->
       In r (relationships g) /\ rel_in_scope u a r = true /\ r_id r = k /\
       (In (source_entity_id r) ks \/ In (target_entity_id r) ks)) /\
    NoDup (map fst rmap).

  (** The invariant of [traverseGraph]: each entity of the map is what
      [getEntity] returns for its key. *)
Definition tinv (st : TraverseState) : Prop :=
    (forall k e, In (k, e) (t_entities st) -> getEntity (entities g) u a k = Some e) /\
    NoDup (map fst (t_entities st)) /\
    rel_map_ok (map fst (t_entities st)) (t_relationships st).

Lemma rel_map_ok_mono ks ks' rmap :
    (forall x, In x ks -> In x ks') -> rel_map_ok ks rmap -> rel_map_ok ks' rmap.
  Proof.
    intros Hk [H1 H2]. split; [|exact H2]. intros k r Hin.
    destruct (H1 k r Hin) as (? & ? & ? & [Hs|Ht]); intuition.
  Qed.

Lemma fold_visit_rel ks entityId visited rels rmap next :
    In entityId ks ->
    (forall r, In r rels -> In r (relationships g) /\ rel_in_scope u a r = true /\
                           (source_entity_id r = entityId \/ target_entity_id r = entityId)) ->
    rel_map_ok ks rmap ->
    rel_map_ok ks (fst (fold_left (visit_rel entityId visited) rels (rmap, next))).
  Proof.
    intros Hk. revert rmap next. induction rels as [|r rels IH]; simpl; intros rmap next Hr Hok.
    - exact Hok.
    - apply IH; [intros; apply Hr; auto|].
      destruct Hok as [H1 H2]. split.
      + intros k r' Hin. apply StateFacts.in_obj_set in Hin as [E|Hin].
        * injection E as -> ->. destruct (Hr r (or_introl eq_refl)) as (? & ? & [Hs|Ht]).
          -- repeat split; auto. left. congruence.
          -- repeat split; auto. right. congruence.
        * auto.
      + now apply RecallFacts.NoDup_obj_set.
  Qed.

Lemma getRelationships_in rels entityId dir r :
    In r (getRelationships rels u a entityId dir) <->
    In r rels /\ rel_in_scope u a r = true /\
    match dir with
    | Outgoing => source_entity_id r = entityId
    | Incoming => target_entity_id r = entityId
    | Both => source_entity_id r = entityId \/ target_entity_id r = entityId
    end.
  Proof.
    unfold getRelationships. rewrite in_sort_by, filter_In, andb_true_iff.
    destruct dir; rewrite ?orb_true_iff, ?String.eqb_eq; tauto.
  Qed.

Lemma visit_entity_inv st next entityId :
    tinv st -> tinv (fst (visit_entity g u a (st, next) entityId)).
  Proof.
    intros (He & Hnd & Hr). unfold visit_entity.
    destruct (existsb (String.eqb entityId) (t_visited st)); [split; auto|].
    destruct (getEntity (entities g) u a entityId) as [entity|] eqn:Eg; [|split; auto].
    destruct (fold_left _ _ _) as [rmap next'] eqn:F. simpl.
    split; [|split].
    - intros k e Hin. apply StateFacts.in_obj_set in Hin as [E|Hin].
      + injection E as -> ->. exact Eg.
      + auto.
    - now apply RecallFacts.NoDup_obj_set.
    - change rmap with (fst (rmap, next')). rewrite <- F.
      apply fold_visit_rel.
      + apply in_keys_obj_set_self.
      + intros r Hin. apply getRelationships_in in Hin. exact Hin.
      + eapply rel_map_ok_mono; [|exact Hr]. apply in_keys_obj_set_old.
  Qed.

Lemma fold_visit_entity_inv level st next :
    tinv st -> tinv (fst (fold_left (visit_entity g u a) level (st, next))).
  Proof.
    revert st next. induction level as [|x level IH]; cbn [fold_left]; intros st next H; [exact H|].
    destruct (visit_entity g u a (st, next) x) as [st' next'] eqn:E.
    apply IH. change st' with (fst (st', next')). rewrite <- E. now apply visit_entity_inv.
  Qed.

Lemma traverse_levels_inv fuel st level :
    tinv st -> tinv (traverse_levels g u a fuel st level).
  Proof.
    revert st level. induction fuel as [|fuel IH]; cbn [traverse_levels]; intros st level H; [exact H|].
    destruct level as [|x level]; [exact H|].
    destruct (fold_left _ _ _) as [st' next] eqn:E. apply IH.
    change st' with (fst (st', next)). rewrite <- E. now apply fold_visit_entity_inv.
  Qed.

Lemma tinv_init : tinv (mkTraverseState [] [] []).
  Proof. split; [|split; [constructor|split; [|constructor]]]; simpl; tauto. Qed.

  (** Once the start entity is the first key, it stays first. *)
Lemma visit_entity_hd st next entityId x :
    hd_error (map fst (t_entities st)) = Some x ->
    hd_error (map fst (t_entities (fst (visit_entity g u a (st, next) entityId)))) = Some x.
  Proof.
    intros H. unfold visit_entity.
    destruct (existsb (String.eqb entityId) (t_visited st)); [exact H|].
    destruct (getEntity (entities g) u a entityId); [|exact H].
    destruct (fold_left _ _ _). simpl. now apply hd_keys_obj_set.
  Qed.

Lemma fold_visit_entity_hd level st next x :
    hd_error (map fst (t_entities st)) = Some x ->
    hd_error (map fst (t_entities (fst (fold_left (visit_entity g u a) level (st, next))))) = Some x.
  Proof.
    revert st next. induction level as [|y level IH]; cbn [fold_left]; intros st next H; [exact H|].
    destruct (visit_entity g u a (st, next) y) as [st' next'] eqn:E.
    apply IH. change st' with (fst (st', next')). rewrite <- E. now apply visit_entity_hd.
  Qed.

Lemma traverse_levels_hd fuel st level x :
    hd_error (map fst (t_entities st)) = Some x ->
    hd_error (map fst (t_entities (traverse_levels g u a fuel st level))) = Some x.
  Proof.
    revert st level. induction fuel as [|fuel IH]; cbn [traverse_levels]; intros st level H; [exact H|].
    destruct level as [|y level]; [exact H|].
    destruct (fold_left _ _ _) as [st' next] eqn:E. apply IH.
    change st' with (fst (st', next)). rewrite <- E. now apply fold_visit_entity_hd.
  Qed.

Lemma traverse_levels_nil fuel st : traverse_levels g u a fuel st [] = st.
  Proof. destruct fuel; reflexivity. Qed.
End Traverse.
Section UUID.
  Local Open Scope Z_scope.

  (** Lowercase hexadecimal digit. *)
Definition is_hex_lower (c : ascii) : bool :=
    existsb (Ascii.eqb c) (list_ascii_of_string "0123456789abcdef").

  (** [s] has the shape of the template [t]: an ['x'] stands for a lowercase
      hex digit, a ['y'] for one of [8], [9], [a], [b], any other character
      for itself. *)
Fixpoint fits_template (t s : string) : bool :=
    match t, s with
    | EmptyString, EmptyString => true
    | String c t', String d s' =>
        (if Ascii.eqb c "x"%char then is_hex_lower d
         else if Ascii.eqb c "y"%char then existsb (Ascii.eqb d) (list_ascii_of_string "89ab")
         else Ascii.eqb c d) && fits_template t' s'
    | _, _ => false
    end.

Lemma fits_template_length t s : fits_template t s = true -> String.length s = String.length t.
  Proof.
    revert s. induction t as [|c t IH]; intros [|d s]; simpl; try discriminate; auto.
    intros H. apply andb_true_iff in H as [_ H]. f_equal. auto.
  Qed.

Lemma toString16_digit v : 0 <= v < 16 -> toString16 v = String (digit16 (Z.to_nat v)) "".
  Proof.
    intros Hv. unfold toString16.
    assert (E : (v <? 0) = false) by (apply Z.ltb_ge; lia). rewrite E.
    assert (Hn : (Z.to_nat v < 16)%nat) by lia.
    cbn [hex_of_nat]. apply Nat.ltb_lt in Hn as Hb. rewrite Hb.
    rewrite Nat.mod_small by (apply Nat.ltb_lt; exact Hb). reflexivity.
  Qed.

Lemma digit16_hex n : (n < 16)%nat -> is_hex_lower (digit16 n) = true.
  Proof. intros H. do 16 (destruct n as [|n]; [reflexivity|]). lia. Qed.

Lemma variant_digit r : 0 <= r < 16 ->
    0 <= Z.lor (Z.land r 3) 8 < 16 /\
    existsb (Ascii.eqb (digit16 (Z.to_nat (Z.lor (Z.land r 3) 8)))) (list_ascii_of_string "89ab") = true.
  Proof.
    intros H. assert (Hc : r = 0 \/ r = 1 \/ r = 2 \/ r = 3 \/ r = 4 \/ r = 5 \/ r = 6 \/ r = 7 \/ r = 8 \/ r = 9 \/ r = 10 \/ r = 11 \/ r = 12 \/ r = 13 \/ r = 14 \/ r = 15) by lia.
    repeat (destruct Hc as [->|Hc]; [split; [split; vm_compute; first [discriminate|reflexivity]|reflexivity]|]).
    subst. split; [split; vm_compute; first [discriminate|reflexivity]|reflexivity].
  Qed.

Lemma uuid_fill_fits t rand n :
    (forall m, 0 <= rand m < 16) -> fits_template t (uuid_fill t rand n) = true.
  Proof.
    intros Hr. revert n. induction t as [|c t IH]; intros n; simpl; [reflexivity|].
    destruct (Ascii.eqb c "x"%char) eqn:Ex; simpl.
    - rewrite toString16_digit by apply Hr. simpl. rewrite ?Ex, digit16_hex by (specialize (Hr n); lia).
      apply IH.
    - destruct (Ascii.eqb c "y"%char) eqn:Ey; simpl.
      + destruct (variant_digit (rand n) (Hr n)) as [Hb Hy].
        rewrite toString16_digit by exact Hb. simpl in Hy. simpl. rewrite Hy. apply IH.
      + rewrite ?Ex, ?Ey, Ascii.eqb_refl. apply IH.
  Qed.
End UUID.
End GraphExtraFacts.

Section GraphExtraTheorems.
  Import GraphDB GraphFacts GraphExtraFacts.
  Local Open Scope list_scope.

  (** [createEntity] fails exactly when the generated id is already stored
      (the PRIMARY KEY); otherwise it appends one row, which [getEntity]
      then returns in the same scope, with [created_at = updated_at = now]
      and the properties ["{}"] when none are given. *)
Theorem createEntity_then_getEntity :
    forall ents u a input now uuid,
      (createEntity ents u a input now uuid = None <-> exists e, In e ents /\ e_id e = uuid) /\
      (forall ents' e, createEntity ents u a input now uuid = Some (ents', e) ->
         ents' = ents ++ [e] /\ getEntity ents' u a uuid = Some e /\
         e_name e = ec_name input /\ e_type e = ec_type input /\
         e_properties e = match ec_properties input with Some p => p | None => "{}" end /\
         e_created_at e = now /\ e_updated_at e = now).
  Proof.
    intros ents u a input now uuid. unfold createEntity.
    destruct (existsb (fun e => String.eqb (e_id e) uuid) ents) eqn:E.
    - apply existsb_exists in E as (e & He & Hid). apply String.eqb_eq in Hid.
      split; [split; eauto|discriminate].
    - split.
      + split; [discriminate|]. intros (e & He & Hid).
        assert (Hx : existsb (fun e => String.eqb (e_id e) uuid) ents = true)
          by (apply existsb_exists; exists e; rewrite Hid, String.eqb_refl; auto).
        congruence.
      + intros ents' e H. injection H as <- <-.
        repeat split; try reflexivity. unfold getEntity.
        rewrite StateFacts.find_app_single.
        rewrite StateFacts.find_none_all.
        * simpl. unfold entity_in_scope. simpl. rewrite !String.eqb_refl. reflexivity.
        * intros x Hx. destruct (String.eqb (e_id x) uuid) eqn:Ex; [|reflexivity].
          exfalso. assert (existsb (fun e => String.eqb (e_id e) uuid) ents = true)
            by (apply existsb_exists; eauto). congruence.
  Qed.

  (** [updateEntity] of an entity that [getEntity] does not find returns
      [null] and writes nothing. Otherwise it returns the entity with the
      given fields replaced (the others kept), the same id, scope and
      [created_at], and [updated_at = now]; [getEntity] then returns
      exactly that entity, and every row with another id or scope is kept. *)
Theorem updateEntity_spec :
    forall ents u a id upd now,
      let '(ents', res) := updateEntity ents u a id upd now in
      match getEntity ents u a id with
      | None => ents' = ents /\ res = None
      | Some old =>
          exists e, res = Some e /\ getEntity ents' u a id = Some e /\
            e_id e = id /\ e_scope_user_id e = u /\ e_scope_agent_id e = a /\
            e_name e = match up_name upd with Some n => n | None => e_name old end /\
            e_type e = match up_type upd with Some t => t | None => e_type old end /\
            e_properties e = match up_properties upd with Some p => p | None => e_properties old end /\
            e_created_at e = e_created_at old /\ e_updated_at e = now /\
            filter (fun x => negb (String.eqb (e_id x) id && entity_in_scope u a x)) ents' =
            filter (fun x => negb (String.eqb (e_id x) id && entity_in_scope u a x)) ents
      end.
  Proof.
    intros ents u a id upd now. unfold updateEntity.
    destruct (getEntity ents u a id) as [old|] eqn:Eg; [|auto].
    destruct (getEntity_some _ _ _ _ _ Eg) as (Hin & Hid & Hsc).
    unfold entity_in_scope in Hsc. apply andb_true_iff in Hsc as [Hu Ha].
    apply String.eqb_eq in Hu, Ha.
    eexists. split; [reflexivity|]. split.
    - unfold getEntity in *. rewrite find_map_same.
      + rewrite Eg. simpl. apply find_some in Eg as [_ Hp]. rewrite Hp. reflexivity.
      + intros x. destruct (String.eqb (e_id x) id && entity_in_scope u a x) eqn:E; simpl;
          [exact E|first [reflexivity|exact E]].
    - simpl. repeat split; try assumption; try reflexivity.
      apply (filter_map_other (fun x => String.eqb (e_id x) id && entity_in_scope u a x)
               (fun e => mkEntityRow (e_id e) _ _ _ (e_scope_user_id e) (e_scope_agent_id e)
                           (e_created_at e) now)).
      intros x. reflexivity.
  Qed.

  (** [deleteRelationship] returns [true] exactly when [getRelationship]
      finds the row; afterwards it finds none, and every other row stays. *)
Theorem deleteRelationship_spec :
    forall rels u a id,
      let '(rels', removed) := deleteRelationship rels u a id in
      (removed = true <-> getRelationship rels u a id <> None) /\
      getRelationship rels' u a id = None /\
      (forall r, In r rels' <-> In r rels /\ ~ (r_id r = id /\ rel_in_scope u a r = true)).
  Proof.
    intros rels u a id. simpl. unfold getRelationship. split; [|split].
    - rewrite Nat.ltb_lt, filter_length_lt. split.
      + intros (x & Hx & Hp). apply negb_false_iff in Hp. intros Hn.
        rewrite find_none_iff in Hn. rewrite (Hn x Hx) in Hp. discriminate.
      + intros Hn. destruct (find _ rels) as [x|] eqn:E; [|congruence].
        apply find_some in E as [Hx Hp]. exists x. split; [exact Hx|]. now rewrite Hp.
    - apply find_none_iff. intros x Hx. apply filter_In in Hx as [_ Hx].
      now apply negb_true_iff in Hx.
    - intros r. rewrite filter_In, negb_true_iff.
      destruct (String.eqb_spec (r_id r) id); destruct (rel_in_scope u a r); simpl;
        intuition congruence.
  Qed.

  (** [getRelationships] returns the rows of the scope whose source
      (outgoing), target (incoming) or either end (both) is the entity, and
      no others, ordered by descending weight. *)
Theorem getRelationships_spec :
    forall rels u a entityId dir,
      (forall r, In r (getRelationships rels u a entityId dir) <->
         In r rels /\ rel_in_scope u a r = true /\
         match dir with
         | Outgoing => source_entity_id r = entityId
         | Incoming => target_entity_id r = entityId
         | Both => source_entity_id r = entityId \/ target_entity_id r = entityId
         end) /\
      Sorted (fun r1 r2 => (weight r2 <= weight r1)%Q) (getRelationships rels u a entityId dir).
  Proof.
    intros rels u a entityId dir. split.
    - intros r. apply getRelationships_in.
    - eapply Sorted_weaken; [|apply Sorted_sort_by, by_weight_desc_total].
      intros x y H. unfold by_weight_desc in H. now apply Qle_bool_iff.
  Qed.

  (** [listEntities] returns the entities of the scope that pass the filter:
      a non-empty [type] is matched exactly, a non-empty [name] as the
      pattern [%name%] of LIKE; it orders them by descending [updated_at]. *)
Theorem listEntities_spec :
    forall ents u a (f : option EntityFilter),
      (forall e, In e (listEntities ents u a f) <->
         In e ents /\ entity_in_scope u a e = true /\
         (forall f0 t, f = Some f0 -> f_type f0 = Some t -> t <> "" -> e_type e = t) /\
         (forall f0 n, f = Some f0 -> f_name f0 = Some n -> n <> "" ->
            like (list_ascii_of_string ("%" ++ n ++ "%")) (list_ascii_of_string (e_name e)) = true)) /\
      Sorted (fun e1 e2 => String.leb (e_updated_at e2) (e_updated_at e1) = true)
        (listEntities ents u a f).
  Proof.
    intros ents u a f. split.
    - intros e. unfold listEntities. rewrite in_sort_by, filter_In, !andb_true_iff.
      destruct f as [[ft fn]|]; simpl.
      + assert (Ht : (match ft with
                      | Some t => if String.eqb t "" then true else String.eqb (e_type e) t
                      | None => true end = true) <->
                     (forall f0 t, Some (mkEntityFilter ft fn) = Some f0 -> f_type f0 = Some t ->
                        t <> "" -> e_type e = t)).
        { split.
          - intros H f0 t E1 E2 Hne. injection E1 as <-. simpl in E2. subst ft.
            destruct (String.eqb t "") eqn:E; [now apply String.eqb_eq in E|].
            now apply String.eqb_eq.
          - intros H. destruct ft as [t|]; [|reflexivity].
            destruct (String.eqb t "") eqn:E; [reflexivity|].
            apply String.eqb_eq. apply (H _ t eq_refl eq_refl).
            intros ->. rewrite String.eqb_refl in E. discriminate. }
        assert (Hn : (match fn with
                      | Some n => if String.eqb n "" then true
                                  else like (list_ascii_of_string ("%" ++ n ++ "%"))
                                            (list_ascii_of_string (e_name e))
                      | None => true end = true) <->
                     (forall f0 n, Some (mkEntityFilter ft fn) = Some f0 -> f_name f0 = Some n ->
                        n <> "" -> like (list_ascii_of_string ("%" ++ n ++ "%"))
                                        (list_ascii_of_string (e_name e)) = true)).
        { split.
          - intros H f0 n E1 E2 Hne. injection E1 as <-. simpl in E2. subst fn.
            destruct (String.eqb n "") eqn:E; [now apply String.eqb_eq in E|exact H].
          - intros H. destruct fn as [n|]; [|reflexivity].
            destruct (String.eqb n "") eqn:E; [reflexivity|].
            apply (H _ n eq_refl eq_refl). intros ->. rewrite String.eqb_refl in E. discriminate. }
        rewrite Ht, Hn. tauto.
      + split.
        * intros (H1 & (H2 & _) & _). repeat split; auto; intros ? ? E; discriminate E.
        * intros (H1 & H2 & _). auto.
    - apply Sorted_sort_by, by_updated_desc_total.
  Qed.

  (** What [traverseGraph] returns: each entity is the row [getEntity]
      finds for its id in the scope (a stored entity of the scope), no
      entity twice; each relationship is a stored row of the scope with its
      source or its target among the returned entities (the other end may
      lie beyond [maxDepth]), no relationship twice. *)
Theorem traverseGraph_sound :
    forall g u a startEntityId maxDepth,
      let '(es, rs) := traverseGraph g u a startEntityId maxDepth in
      (forall e, In e es ->
         getEntity (entities g) u a (e_id e) = Some e /\ In e (entities g) /\
         entity_in_scope u a e = true) /\
      NoDup (map e_id es) /\
      (forall r, In r rs ->
         In r (relationships g) /\ rel_in_scope u a r = true /\
         (In (source_entity_id r) (map e_id es) \/ In (target_entity_id r) (map e_id es))) /\
      NoDup (map r_id rs).
  Proof.
    intros g u a s d. unfold traverseGraph.
    destruct (traverse_levels_inv g u a (Z.to_nat d) _ [s] (tinv_init g u a))
      as (He & Hnd & Hr & Hrnd).
    set (st := traverse_levels g u a (Z.to_nat d) (mkTraverseState [] [] []) [s]) in *.
    assert (Hk : map e_id (map snd (t_entities st)) = map fst (t_entities st)).
    { clear Hnd Hr Hrnd. induction (t_entities st) as [|[k e] l IH]; simpl; [reflexivity|].
      f_equal.
      - destruct (getEntity_some _ _ _ _ _ (He k e (or_introl eq_refl))) as (_ & Hid & _). exact Hid.
      - apply IH. intros k' e' Hin. apply He. now right. }
    assert (Hkr : map r_id (map snd (t_relationships st)) = map fst (t_relationships st)).
    { clear Hrnd. induction (t_relationships st) as [|[k r] l IH]; simpl; [reflexivity|].
      f_equal.
      - destruct (Hr k r (or_introl eq_refl)) as (_ & _ & Hid & _). exact Hid.
      - apply IH. intros k' r' Hin. apply Hr. now right. }
    rewrite Hk, Hkr. split; [|split; [exact Hnd|split; [|exact Hrnd]]].
    - intros e Hin. apply in_map_iff in Hin as ([k e'] & <- & Hin). simpl.
      pose proof (He k e' Hin) as Hg. destruct (getEntity_some _ _ _ _ _ Hg) as (H1 & H2 & H3).
      rewrite H2. auto.
    - intros r Hin. apply in_map_iff in Hin as ([k r'] & <- & Hin). simpl.
      destruct (Hr k r' Hin) as (H1 & H2 & _ & H4). auto.
  Qed.

  (** The edges of [traverseGraph]: with [maxDepth <= 0] it returns nothing;
      with [maxDepth >= 1] it returns nothing when the start entity is not
      found in the scope, and otherwise the start entity comes first. *)
Theorem traverseGraph_start :
    forall g u a startEntityId maxDepth,
      ((maxDepth <= 0)%Z -> traverseGraph g u a startEntityId maxDepth = ([], [])) /\
      ((1 <= maxDepth)%Z -> getEntity (entities g) u a startEntityId = None ->
         traverseGraph g u a startEntityId maxDepth = ([], [])) /\
      (forall e, (1 <= maxDepth)%Z -> getEntity (entities g) u a startEntityId = Some e ->
         hd_error (fst (traverseGraph g u a startEntityId maxDepth)) = Some e).
  Proof.
    intros g u a s d. split; [|split].
    - intros Hd. unfold traverseGraph. replace (Z.to_nat d) with 0%nat by lia. reflexivity.
    - intros Hd Hg. unfold traverseGraph.
      replace (Z.to_nat d) with (S (Z.to_nat d - 1)) by lia.
      cbn [traverse_levels fold_left]. unfold visit_entity. simpl existsb. rewrite Hg.
      simpl. rewrite traverse_levels_nil. reflexivity.
    - intros e Hd Hg. unfold traverseGraph.
      replace (Z.to_nat d) with (S (Z.to_nat d - 1)) by lia.
      cbn [traverse_levels fold_left]. unfold visit_entity at 1. simpl existsb. rewrite Hg.
      destruct (fold_left _ _ _) as [rmap next] eqn:F. simpl.
      cbn [t_visited t_relationships app] in F.
      set (st := traverse_levels g u a (Z.to_nat d - 1) _ next).
      assert (Hhd : hd_error (map fst (t_entities st)) = Some s)
        by (apply traverse_levels_hd; reflexivity).
      assert (Hinv : tinv g u a st).
      { apply traverse_levels_inv. split; [|split; [|split]]; simpl.
        - intros k e' [E|[]]. injection E as <- <-. exact Hg.
        - repeat constructor. intros [].
        - intros k r Hin.
          pose proof (fold_visit_rel g u a [s] s [s] (getRelationships (relationships g) u a s Both)
                        [] [] (or_introl eq_refl)) as Hf.
          rewrite F in Hf. apply Hf; [|split; [intros ? ? []|constructor]| exact Hin].
          intros r' Hr'. apply getRelationships_in in Hr'. exact Hr'.
        - pose proof (fold_visit_rel g u a [s] s [s] (getRelationships (relationships g) u a s Both)
                        [] [] (or_introl eq_refl)) as Hf.
          rewrite F in Hf. apply Hf; [|split; [intros ? ? []|constructor]].
          intros r' Hr'. apply getRelationships_in in Hr'. exact Hr'. }
      destruct Hinv as (He & _ & _).
      destruct (t_entities st) as [|[k e'] l] eqn:El; [discriminate|].
      simpl in Hhd. injection Hhd as ->. simpl.
      rewrite (He s e' (or_introl eq_refl)) in Hg. congruence.
  Qed.

Lemma traverseGraph_start_witness :
    hd_error (fst (traverseGraph
                     (mkGraph [mkEntityRow "a" "Ann" "person" "{}" "u" "x" "t0" "t0"] []) "u" "x" "a" 2))
    = Some (mkEntityRow "a" "Ann" "person" "{}" "u" "x" "t0" "t0").
  Proof.
    apply (proj2 (proj2 (traverseGraph_start
                           (mkGraph [mkEntityRow "a" "Ann" "person" "{}" "u" "x" "t0" "t0"] [])
                           "u" "x" "a" 2))); [lia|reflexivity].
  Defined.

  (** [generateUUID] has the textual form of a version-4 UUID: 36
      characters, hyphens at positions 8, 13, 18 and 23, the digit [4] at
      position 14, one of [8], [9], [a], [b] at position 19 and lowercase hex
      digits elsewhere, for every sequence of values of
      [Math.random() * 16 | 0] (which lie in [0, 15]). *)
Theorem generateUUID_shape :
    forall rand : nat -> Z, (forall n, (0 <= rand n < 16)%Z) ->
      fits_template uuid_template (generateUUID rand) = true /\
      String.length (generateUUID rand) = 36%nat.
  Proof.
    intros rand Hr. unfold generateUUID.
    pose proof (uuid_fill_fits uuid_template rand 0 Hr) as H.
    split; [exact H|]. rewrite (fits_template_length _ _ H). reflexivity.
  Qed.

Lemma generateUUID_shape_witness :
    (forall n, (0 <= Z.of_nat (n mod 16) < 16)%Z) /\
    fits_template uuid_template (generateUUID (fun n => Z.of_nat (n mod 16))) = true.
  Proof.
    assert (Hr : forall n, (0 <= Z.of_nat (n mod 16) < 16)%Z).
    { intros n. pose proof (Nat.mod_upper_bound n 16). lia. }
    split; [exact Hr|]. apply (generateUUID_shape (fun n => Z.of_nat (n mod 16)) Hr).
  Defined.
End GraphExtraTheorems.

Module SlotExtraFacts.
  Import SlotDB SlotFacts StateFacts GraphExtraFacts.

Lemma lex2_le_total a1 b1 a2 b2 : lex2_le a1 b1 a2 b2 = false -> lex2_le a2 b2 a1 b1 = true.
  Proof.
    unfold lex2_le. rewrite (String.compare_antisym a2 a1).
    destruct (String.compare a1 a2); simpl; try discriminate; auto.
    intros H. destruct (String.leb_total b1 b2); congruence.
  Qed.

Lemma by_cat_key_total x y : by_cat_key x y = false -> by_cat_key y x = true.
  Proof. apply lex2_le_total. Qed.

Lemma by_key_total x y : by_key x y = false -> by_key y x = true.
  Proof. unfold by_key. intros H. destruct (String.leb_total (key x) (key y)); congruence. Qed.

Lemma count_app db1 db2 u a : count (db1 ++ db2)%list u a = (count db1 u a + count db2 u a)%nat.
  Proof. unfold count. now rewrite filter_app, length_app. Qed.

Lemma las_app s t : list_ascii_of_string (s ++ t) = (list_ascii_of_string s ++ list_ascii_of_string t)%list.
  Proof. induction s as [|c s IH]; simpl; [reflexivity|]. now rewrite IH. Qed.

Lemma sla_app l m : string_of_list_ascii (l ++ m)%list = string_of_list_ascii l ++ string_of_list_ascii m.
  Proof. induction l as [|c l IH]; simpl; [reflexivity|]. now rewrite IH. Qed.

  (** A LIKE pattern without the wildcards [%] and [_]. *)
Definition no_wildcards (p : string) : bool :=
    forallb (fun c => negb (Ascii.eqb c "%"%char) && negb (Ascii.eqb c "_"%char))
            (list_ascii_of_string p).

Lemma like_pct s : like ["%"%char] s = true.
  Proof. induction s as [|d s IH]; simpl in *; [reflexivity|exact IH]. Qed.

Lemma like_prefix_list p s :
    forallb (fun c => negb (Ascii.eqb c "%"%char) && negb (Ascii.eqb c "_"%char)) p = true ->
    like (p ++ ["%"%char])%list s = true <->
    exists s1 s2, s = (s1 ++ s2)%list /\ map ascii_lower s1 = map ascii_lower p.
  Proof.
    revert s. induction p as [|c p IH]; intros s Hp.
    - simpl. split; [intros _; exists [], s; auto|intros _; apply like_pct].
    - simpl in Hp. apply andb_true_iff in Hp as [Hc Hp].
      apply andb_true_iff in Hc as [Hc1 Hc2]. apply negb_true_iff in Hc1, Hc2.
      simpl. rewrite Hc1. destruct s as [|d s].
      + split; [discriminate|]. intros ([|x s1] & s2 & E & Hm); discriminate.
      + rewrite Hc2. simpl. rewrite andb_true_iff, Ascii.eqb_eq, IH by exact Hp. split.
        * intros (Hl & s1 & s2 & -> & Hm). exists (d :: s1), s2. simpl. rewrite Hm, Hl. auto.
        * intros ([|x s1] & s2 & E & Hm); [discriminate|]. simpl in E, Hm.
          injection E as <- ->. injection Hm as Hl Hm. eauto.
  Qed.

  (** The prefix filter of [list] on keys. *)
Lemma like_prefix p k :
    no_wildcards p = true ->
    like (list_ascii_of_string (p ++ "%")) (list_ascii_of_string k) = true <->
    exists k1 k2, k = k1 ++ k2 /\
      map ascii_lower (list_ascii_of_string k1) = map ascii_lower (list_ascii_of_string p).
  Proof.
    intros Hp. rewrite las_app. simpl. rewrite like_prefix_list by exact Hp. split.
    - intros (s1 & s2 & E & Hm). exists (string_of_list_ascii s1), (string_of_list_ascii s2).
      rewrite list_ascii_of_string_of_list_ascii. split; [|exact Hm].
      rewrite <- sla_app, <- E. symmetry. apply string_of_list_ascii_of_string.
    - intros (k1 & k2 & -> & Hm). exists (list_ascii_of_string k1), (list_ascii_of_string k2).
      rewrite las_app. auto.
  Qed.

Lemma like_underscore k :
    like (list_ascii_of_string ("_" ++ "%")) (list_ascii_of_string k) = negb (String.eqb k "").
  Proof. destruct k as [|d k]; simpl; [reflexivity|apply like_pct]. Qed.

Lemma in_list db u a inp now r :
    In r (snd (list db u a inp now)) <->
    In r db /\ in_scope u a r = true /\ expired_at now r = false /\ list_filter inp r = true.
  Proof.
    unfold list. simpl. rewrite in_sort_by, filter_In, cleanExpired_In, !andb_true_iff.
    destruct (in_scope u a r), (expired_at now r); simpl; intuition congruence.
  Qed.
End SlotExtraFacts.

Section SlotExtraTheorems.
  Import SlotDB SlotFacts StateFacts GraphExtraFacts SlotExtraFacts.
  Import Samples.

  (** Round trip of [set] and [get]: on a table where each
      [(scope, key)] holds at most one row, a successful [set] of a non-empty
      key is read back by [get] of that key (with or without a category) as
      exactly the slot [set] returned, as long as it has not expired. *)
Theorem set_then_get :
    forall db u a inp now ms db' r now' cat,
      wf db -> set db u a inp now ms = Some (db', r) -> in_key inp <> "" ->
      expired_at now' r = false ->
      snd (get db' u a (mkSlotGetInput (Some (in_key inp)) cat) now') = GOne (Some r).
  Proof.
    intros db u a inp now ms db' r now' cat Hwf Hset Hk Hexp.
    pose proof (set_wf _ _ _ _ _ _ _ _ Hwf Hset) as Hwf'.
    assert (Hin : In r db' /\ skey r = (u, a, in_key inp)).
    { destruct (set_spec _ _ _ _ _ _ _ _ Hwf Hset)
        as [(old & pre & post & Hsk & _ & -> & _ & Hsk' & _)|(_ & -> & Hsk & _)].
      - split; [apply in_or_app; right; left; reflexivity|congruence].
      - split; [apply in_or_app; right; left; reflexivity|exact Hsk]. }
    destruct Hin as [Hin Hsk].
    unfold get. simpl. destruct (String.eqb (in_key inp) "") eqn:E.
    { apply String.eqb_eq in E. contradiction. }
    simpl. f_equal. unfold select_key. apply find_unique.
    - intros x Hx Hp. apply andb_true_iff in Hp as [Hs Hkx]. apply String.eqb_eq in Hkx.
      apply cleanExpired_In in Hx as [Hx _].
      apply (NoDup_map_inj_in _ _ skey db'); [apply Hwf'|exact Hx|exact Hin|].
      rewrite Hsk. unfold skey. unfold in_scope in Hs. apply andb_true_iff in Hs as [Hu Ha].
      apply String.eqb_eq in Hu, Ha. congruence.
    - apply cleanExpired_In. split; [exact Hin|]. now rewrite Hexp, andb_false_r.
    - unfold skey in Hsk. injection Hsk as Hu Ha Hkr. unfold in_scope.
      rewrite Hu, Ha, Hkr, !String.eqb_refl. reflexivity.
  Qed.

Lemma set_then_get_witness :
    set [] "u" "a" name_v1 t_day0 "1767139200000" = Some ([name_row], name_row) /\
    snd (get [name_row] "u" "a" (mkSlotGetInput (Some "profile.name") None) t_day1)
      = GOne (Some name_row).
  Proof.
    split; [reflexivity|].
    apply (set_then_get [] "u" "a" name_v1 t_day0 "1767139200000" [name_row] name_row t_day1 None).
    - exact wf_nil.
    - reflexivity.
    - discriminate.
    - reflexivity.
  Defined.

  (** [delete] returns [true] exactly when the scope holds a row for the
      key; afterwards no row of the key is left in the scope, and every
      other row stays. *)
Theorem delete_spec :
    forall db u a k,
      let '(db', removed) := delete db u a k in
      (removed = true <-> select_key db u a k <> None) /\
      select_key db' u a k = None /\
      (forall r, In r db' <-> In r db /\ ~ (in_scope u a r = true /\ key r = k)).
  Proof.
    intros db u a k. simpl. unfold select_key. split; [|split].
    - rewrite Nat.ltb_lt, GraphFacts.filter_length_lt. split.
      + intros (x & Hx & Hp). apply negb_false_iff in Hp. intros Hn.
        rewrite find_none_iff in Hn. rewrite (Hn x Hx) in Hp. discriminate.
      + intros Hn. destruct (find _ db) as [x|] eqn:E; [|congruence].
        apply find_some in E as [Hx Hp]. exists x. split; [exact Hx|]. now rewrite Hp.
    - apply find_none_iff. intros x Hx. apply filter_In in Hx as [_ Hx].
      now apply negb_true_iff in Hx.
    - intros r. rewrite filter_In, negb_true_iff.
      destruct (String.eqb_spec (key r) k); destruct (in_scope u a r); simpl;
        intuition congruence.
  Qed.

  (** [count] after a successful [set] on a table where each
      [(scope, key)] holds at most one row: the scope of the [set] gains one
      slot when the key was new and keeps its count when the slot was
      updated; every other scope keeps its count. *)
Theorem count_after_set :
    forall db u a inp now ms db' r u' a',
      wf db -> set db u a inp now ms = Some (db', r) ->
      count db' u' a' =
        (count db u' a' +
         match select_key db u a (in_key inp) with
         | Some _ => 0
         | None => if String.eqb u' u && String.eqb a' a then 1 else 0
         end)%nat.
  Proof.
    intros db u a inp now ms db' r u' a' Hwf Hset.
    destruct (set_spec _ _ _ _ _ _ _ _ Hwf Hset)
      as [(old & pre & post & Hsk & -> & -> & _ & Hsk' & _)|(Hnone & -> & Hsk & _)].
    - destruct (select_key _ u a (in_key inp)) eqn:Es.
      + rewrite !count_app. unfold count. simpl.
        assert (Hs : in_scope u' a' r = in_scope u' a' old).
        { unfold skey in Hsk'. injection Hsk' as Hu Ha _. unfold in_scope. now rewrite Hu, Ha. }
        rewrite Hs. destruct (in_scope u' a' old); simpl; lia.
      + exfalso. eapply select_key_none; [exact Es| |exact Hsk].
        apply in_or_app. right. left. reflexivity.
    - unfold select_key. rewrite find_none_all.
      + rewrite count_app. unfold count at 2. simpl.
        unfold skey in Hsk. injection Hsk as Hu Ha _. unfold in_scope. rewrite Hu, Ha.
        rewrite (String.eqb_sym u u'), (String.eqb_sym a a').
        destruct (String.eqb u' u && String.eqb a' a); simpl; lia.
      + intros x Hx. destruct (in_scope u a x && String.eqb (key x) (in_key inp)) eqn:E; [|reflexivity].
        exfalso. apply andb_true_iff in E as [Hs Hk]. apply String.eqb_eq in Hk.
        unfold in_scope in Hs. apply andb_true_iff in Hs as [Hu Ha].
        apply String.eqb_eq in Hu, Ha. apply (Hnone x Hx). unfold skey. now rewrite Hu, Ha, Hk.
  Qed.

Lemma count_after_set_witness :
    set [] "u" "a" name_v1 t_day0 "1767139200000" = Some ([name_row], name_row) /\
    count [name_row] "u" "a" = 1%nat.
  Proof.
    split; [reflexivity|].
    rewrite (count_after_set [] "u" "a" name_v1 t_day0 "1767139200000" [name_row] name_row "u" "a").
    - reflexivity.
    - exact wf_nil.
    - reflexivity.
  Defined.

  (** [list] returns the live (unexpired) slots of the scope that pass the
      category and prefix filters, and no others, ordered by category then
      key; the expired slots of the scope are deleted first. *)
Theorem list_spec :
    forall db u a inp now,
      let '(db', rs) := list db u a inp now in
      db' = cleanExpired db u a now /\
      (forall r, In r rs <->
         In r db /\ in_scope u a r = true /\ expired_at now r = false /\ list_filter inp r = true) /\
      Sorted (fun r1 r2 => lex2_le (category r1) (key r1) (category r2) (key r2) = true) rs.
  Proof.
    intros db u a inp now. split; [reflexivity|split].
    - intros r. apply (in_list db u a inp now r).
    - apply (Sorted_sort_by _ by_cat_key by_cat_key_total).
  Qed.

  (** The [prefix] of [list] is a LIKE pattern [prefix%]: without the
      wildcards [%] and [_] it selects the live slots of the scope whose key
      begins with the prefix, letters compared without regard to ASCII case. *)
Theorem list_prefix_case_insensitive :
    forall db u a p now r,
      no_wildcards p = true ->
      In r (snd (list db u a (mkSlotListInput None (Some p)) now)) <->
      In r db /\ in_scope u a r = true /\ expired_at now r = false /\
      exists k1 k2, key r = k1 ++ k2 /\
        map ascii_lower (list_ascii_of_string k1) = map ascii_lower (list_ascii_of_string p).
  Proof.
    intros db u a p now r Hp. rewrite in_list. unfold list_filter. simpl.
    destruct (String.eqb p "") eqn:Ep.
    - apply String.eqb_eq in Ep. subst p. split.
      + intros (H1 & H2 & H3 & _). repeat split; auto. exists "", (key r). auto.
      + intros (H1 & H2 & H3 & _). auto.
    - rewrite <- like_prefix by exact Hp. tauto.
  Qed.

Lemma list_prefix_case_insensitive_witness :
    no_wildcards "PROFILE." = true /\
    (In name_row (snd (list [name_row] "u" "a" (mkSlotListInput None (Some "PROFILE.")) t_day1)) <->
     In name_row [name_row] /\ in_scope "u" "a" name_row = true /\
     expired_at t_day1 name_row = false /\
     exists k1 k2, key name_row = k1 ++ k2 /\
       map ascii_lower (list_ascii_of_string k1) = map ascii_lower (list_ascii_of_string "PROFILE.")).
  Proof.
    split; [reflexivity|].
    apply (list_prefix_case_insensitive [name_row] "u" "a" "PROFILE." t_day1 name_row).
    reflexivity.
  Defined.

  (** The prefix ["_"] (the start of internal keys such as [_autocapture...])
      is the LIKE wildcard for one character: [list] with it returns every
      live slot of the scope with a non-empty key. *)
Theorem list_prefix_underscore_matches_all :
    forall db u a now r,
      In r (snd (list db u a (mkSlotListInput None (Some "_")) now)) <->
      In r db /\ in_scope u a r = true /\ expired_at now r = false /\ key r <> "".
  Proof.
    intros db u a now r. rewrite in_list. unfold list_filter. cbn [l_category l_prefix].
    rewrite like_underscore. simpl.
    destruct (String.eqb_spec (key r) ""); simpl; intuition congruence.
  Qed.

  (** [get] without a key: a key [""] counts as absent; the result is the
      list of live slots of the scope, restricted to the category when one
      is given (non-empty) and then ordered by key, otherwise ordered by
      category then key. *)
Theorem get_without_key :
    forall db u a c now,
      get db u a (mkSlotGetInput (Some "") c) now = get db u a (mkSlotGetInput None c) now /\
      exists rs, snd (get db u a (mkSlotGetInput None c) now) = GMany rs /\
        (forall r, In r rs <->
           In r db /\ in_scope u a r = true /\ expired_at now r = false /\
           match c with Some c0 => c0 = "" \/ category r = c0 | None => True end) /\
        match c with
        | Some c0 => if String.eqb c0 "" then Sorted (fun r1 r2 => by_cat_key r1 r2 = true) rs
                     else Sorted (fun r1 r2 => String.leb (key r1) (key r2) = true) rs
        | None => Sorted (fun r1 r2 => by_cat_key r1 r2 = true) rs
        end.
  Proof.
    intros db u a c now. split; [reflexivity|].
    unfold get. simpl. destruct c as [c0|].
    - destruct (String.eqb c0 "") eqn:Ec.
      + eexists. split; [reflexivity|]. split.
        * intros r. rewrite in_sort_by, filter_In, cleanExpired_In. apply String.eqb_eq in Ec.
          destruct (in_scope u a r), (expired_at now r); simpl; intuition congruence.
        * apply (Sorted_sort_by _ by_cat_key by_cat_key_total).
      + eexists. split; [reflexivity|]. split.
        * intros r. rewrite in_sort_by, filter_In, cleanExpired_In, andb_true_iff, String.eqb_eq.
          assert (c0 <> "") by (intros ->; discriminate).
          destruct (in_scope u a r), (expired_at now r); simpl; intuition congruence.
        * apply (Sorted_sort_by _ by_key by_key_total).
    - eexists. split; [reflexivity|]. split.
      + intros r. rewrite in_sort_by, filter_In, cleanExpired_In.
        destruct (in_scope u a r), (expired_at now r); simpl; intuition congruence.
      + apply (Sorted_sort_by _ by_cat_key by_cat_key_total).
  Qed.
End SlotExtraTheorems.

(* ------------------------------------------------------------------------ *)
(** ** Facts about the prompt formatting and injection *)

Module RecallPromptFacts.
Import Capture RecallPrompt.

Lemma substring_whole (q : string) : substring 0 (String.length q) q = q.
Proof. induction q as [|c q IH]; simpl; [reflexivity|]. rewrite IH. reflexivity. Qed.

Lemma substring_app_l (p q : string) :
  substring (String.length p) (String.length (p ++ q) - String.length p) (p ++ q) = q.
Proof.
  induction p as [|c p IH]; simpl.
  - rewrite Nat.sub_0_r. apply substring_whole.
  - exact IH.
Qed.

Lemma prefix_app_self (p q : string) : String.prefix p (p ++ q) = true.
Proof.
  induction p as [|c p IH]; simpl; [destruct q; reflexivity|].
  destruct (ascii_dec c c); [exact IH|contradiction].
Qed.

Lemma prefix_empty (s : string) : String.prefix EmptyString s = true.
Proof. destruct s; reflexivity. Qed.

(** A prefix that does not contain the character [x] cannot run into [x]. *)
Lemma prefix_stops_at (x : ascii) (p r s : string) :
  contains (String x EmptyString) p = false ->
  String.prefix p (r ++ String x s) = true -> String.prefix p r = true.
Proof.
  revert p. induction r as [|c r IH]; intros p Hp H.
  - destruct p as [|d p]; [reflexivity|].
    simpl in Hp, H. destruct (ascii_dec d x) as [->|Ne].
    + destruct (ascii_dec x x); [|contradiction].
      rewrite prefix_empty in Hp. discriminate.
    + destruct (ascii_dec d x); [contradiction|discriminate].
  - destruct p as [|d p]; [reflexivity|].
    simpl in H |- *. destruct (ascii_dec d c); [|discriminate].
    apply IH; [|exact H].
    simpl in Hp. apply orb_false_iff in Hp as [_ Hp]. exact Hp.
Qed.

Lemma split_first_none (pat s : string) :
  contains pat s = false -> split_first pat s = None.
Proof.
  induction s as [|c s IH]; intros H; simpl in H |- *;
    apply orb_false_iff in H as [H1 H2]; rewrite H1; [reflexivity|].
  rewrite (IH H2). reflexivity.
Qed.

Lemma split_first_hit (pat s : string) :
  String.prefix pat s = true ->
  split_first pat s
  = Some (EmptyString, substring (String.length pat) (String.length s - String.length pat) s).
Proof. intros H. destruct s; cbn [split_first]; rewrite H; reflexivity. Qed.

(** The first occurrence of a pattern whose first character does not occur
    again in it. *)
Lemma split_first_app (x : ascii) (p pre post : string) :
  contains (String x EmptyString) p = false ->
  contains (String x p) pre = false ->
  split_first (String x p) (pre ++ String x p ++ post) = Some (pre, post).
Proof.
  intros Hp. induction pre as [|c pre IH]; intros Hpre.
  - cbn [append]. rewrite split_first_hit by apply (prefix_app_self (String x p)).
    f_equal. f_equal. exact (substring_app_l (String x p) post).
  - simpl in Hpre. apply orb_false_iff in Hpre as [H1 H2].
    change (String c pre ++ String x p ++ post) with (String c (pre ++ String x p ++ post)).
    cbn [split_first].
    replace (String.prefix (String x p) (String c (pre ++ String x p ++ post))) with false.
    + rewrite (IH H2). reflexivity.
    + simpl. destruct (ascii_dec x c) as [<-|]; [|reflexivity].
      symmetry. apply not_true_iff_false. intros H.
      apply (prefix_stops_at x p pre (p ++ post) Hp) in H.
      simpl in H1. destruct (ascii_dec x x); [|contradiction].
      rewrite H in H1. discriminate.
Qed.

Lemma get_substitution_plain (m pre post rep : string) :
  contains "$" rep = false -> get_substitution m pre post rep = rep.
Proof.
  induction rep as [|c r IH]; intros H; [reflexivity|].
  simpl in H. apply orb_false_iff in H as [H1 H2].
  cbn [get_substitution].
  replace (Ascii.eqb c "$"%char) with false.
  - rewrite (IH H2). reflexivity.
  - destruct (Ascii.eqb_spec c "$"%char) as [->|]; [|reflexivity].
    simpl in H1. rewrite prefix_empty in H1. discriminate.
Qed.

Lemma contains_char_app (x : ascii) (a b : string) :
  contains (String x EmptyString) (a ++ b)
  = contains (String x EmptyString) a || contains (String x EmptyString) b.
Proof.
  induction a as [|c a IH]; [reflexivity|].
  cbn [append contains]. rewrite IH.
  simpl. destruct (ascii_dec x c); [rewrite !prefix_empty; reflexivity|].
  apply orb_assoc.
Qed.

Lemma contains_char_concat (x : ascii) (sep : string) (l : Datatypes.list string) :
  contains (String x EmptyString) sep = false ->
  Forall (fun s => contains (String x EmptyString) s = false) l ->
  contains (String x EmptyString) (String.concat sep l) = false.
Proof.
  intros Hs. induction 1 as [|s l Hx Hl IH]; [reflexivity|].
  destruct l as [|t l]; [exact Hx|].
  change (String.concat sep (s :: t :: l)) with (s ++ sep ++ String.concat sep (t :: l)).
  rewrite !contains_char_app, Hx, Hs, IH. reflexivity.
Qed.

Lemma injectionParts_Forall (P : string -> Prop) (ctx : RecallParts) :
  P (currentState ctx) -> P (graphContext ctx) -> P (recentUpdates ctx) ->
  P (semanticMemories ctx) -> Forall P (injectionParts ctx).
Proof.
  intros H1 H2 H3 H4. unfold injectionParts.
  destruct (String.eqb (currentState ctx) ""), (String.eqb (graphContext ctx) ""),
    (String.eqb (recentUpdates ctx) ""), (String.eqb (semanticMemories ctx) "");
    cbn [app]; repeat constructor; assumption.
Qed.

Lemma format_slots_filter (xml : string) (slots : Datatypes.list (string * json)) :
  format_slots xml slots
  = format_slots xml (filter (fun kv => negb (starts_with "_" (fst kv))) slots).
Proof.
  unfold format_slots. revert xml.
  induction slots as [|[k v] slots IH]; intros xml; [reflexivity|].
  cbn [fold_left filter fst].
  destruct (starts_with "_" k) eqn:E; cbn [negb fold_left]; rewrite ?E; apply IH.
Qed.

Lemma fold_left_map_gen {A B C : Type} (f : A -> B -> A) (g : C -> B) l acc :
  fold_left f (map g l) acc = fold_left (fun a c => f a (g c)) l acc.
Proof. revert acc. induction l; simpl; auto. Qed.

Lemma fold_left_ext_gen {A B : Type} (f g : A -> B -> A) l acc :
  (forall a x, f a x = g a x) -> fold_left f l acc = fold_left g l acc.
Proof.
  intros H. revert acc. induction l as [|x l IH]; intros acc; [reflexivity|].
  cbn [fold_left]. rewrite H. apply IH.
Qed.

End RecallPromptFacts.

(* ------------------------------------------------------------------------ *)
(** ** Properties of the prompt formatting and injection *)

Section RecallPromptTheorems.
Import Capture RecallPrompt RecallPromptFacts.

(** [formatCurrentState] never shows an internal slot: the rendering of a
    state is the rendering of the same state with every slot whose key
    starts with ["_"] removed. *)
Theorem formatCurrentState_hides_internal (state : recall_state) :
  formatCurrentState state
  = formatCurrentState
      (map (fun cs => (fst cs, filter (fun kv => negb (starts_with "_" (fst kv))) (snd cs)))
           state).
Proof.
  destruct state as [|cs state]; [reflexivity|].
  unfold formatCurrentState. cbn [map]. f_equal.
  match goal with
  | |- fold_left ?F _ ?a = fold_left ?F (_ :: map ?h ?l) ?a =>
      transitivity (fold_left F (map h (cs :: l)) a); [|reflexivity]
  end.
  rewrite fold_left_map_gen. apply fold_left_ext_gen. intros xml [category slots]. cbn [fst snd].
  rewrite <- format_slots_filter. reflexivity.
Qed.

(** [formatGraphContext] shows at most the first ten entities and the first
    eight relationships: its output is the same on the lists cut to those
    lengths. *)
Theorem formatGraphContext_limits (entities : Datatypes.list EntityView)
    (relationships : Datatypes.list RelView) :
  formatGraphContext entities relationships
  = formatGraphContext (firstn 10 entities) (firstn 8 relationships).
Proof.
  destruct entities as [|e es]; [reflexivity|].
  destruct relationships as [|r rs];
    unfold formatGraphContext; rewrite !firstn_firstn; reflexivity.
Qed.

(** When the prompt has no ["<system>"] tag and there is something to
    inject, [injectRecallContext] puts the injection block in front of the
    prompt, which follows unchanged. *)
Theorem injectRecallContext_prepend (systemPrompt : string) (ctx : RecallParts) :
  injectionParts ctx <> [] ->
  contains "<system>" systemPrompt = false ->
  injectRecallContext systemPrompt ctx = recall_injection (injectionParts ctx) ++ systemPrompt.
Proof.
  intros Hne Hs. unfold injectRecallContext.
  destruct (injectionParts ctx) as [|q qs]; [contradiction|].
  rewrite Hs. reflexivity.
Qed.

Lemma injectRecallContext_prepend_witness :
  injectionParts (mkRecallParts "<current-state/>" "" "" "") <> [] /\
  contains "<system>" "Be brief." = false /\
  injectRecallContext "Be brief." (mkRecallParts "<current-state/>" "" "" "")
  = recall_injection ["<current-state/>"] ++ "Be brief.".
Proof.
  split; [discriminate|]. split; [reflexivity|].
  exact (injectRecallContext_prepend "Be brief." (mkRecallParts "<current-state/>" "" "" "")
           ltac:(discriminate) eq_refl).
Defined.

(** When the prompt contains ["<system>"] but no ["</system>"],
    [injectRecallContext] returns the prompt unchanged: the recalled context
    is dropped, whatever it is. *)
Theorem injectRecallContext_drops_without_close (systemPrompt : string) (ctx : RecallParts) :
  contains "<system>" systemPrompt = true ->
  contains "</system>" systemPrompt = false ->
  injectRecallContext systemPrompt ctx = systemPrompt.
Proof.
  intros Hs Hc. unfold injectRecallContext.
  destruct (injectionParts ctx) as [|q qs]; [reflexivity|].
  rewrite Hs. unfold js_replace. rewrite (split_first_none _ _ Hc). reflexivity.
Qed.

Lemma injectRecallContext_drops_without_close_witness :
  contains "<system>" "<system>Be brief." = true /\
  contains "</system>" "<system>Be brief." = false /\
  injectRecallContext "<system>Be brief." (mkRecallParts "<current-state/>" "" "" "")
  = "<system>Be brief.".
Proof.
  split; [reflexivity|]. split; [reflexivity|].
  exact (injectRecallContext_drops_without_close "<system>Be brief."
           (mkRecallParts "<current-state/>" "" "" "") eq_refl eq_refl).
Defined.

(** With a ["<system>"] tag, the injection goes right after the first
    ["</system>"]: the text inserted there is the replacement string
    ["</system>\n\n" + injection] as [String.prototype.replace] expands it,
    so that its [$] patterns ([$$], [$&], [$`], [$']) are substituted. *)
Theorem injectRecallContext_after_system (pre post : string) (ctx : RecallParts) :
  injectionParts ctx <> [] ->
  contains "<system>" (pre ++ "</system>" ++ post) = true ->
  contains "</system>" pre = false ->
  injectRecallContext (pre ++ "</system>" ++ post) ctx
  = pre ++ get_substitution "</system>" pre post
                ("</system>" ++ nl ++ nl ++ recall_injection (injectionParts ctx)) ++ post.
Proof.
  intros Hne Hs Hpre. unfold injectRecallContext.
  destruct (injectionParts ctx) as [|q qs]; [contradiction|].
  rewrite Hs. unfold js_replace.
  rewrite (split_first_app "<"%char "/system>" pre post eq_refl Hpre). reflexivity.
Qed.

Lemma injectRecallContext_after_system_witness :
  injectionParts (mkRecallParts "" "" "" "cost: $&") <> [] /\
  contains "<system>" ("<system>Be brief." ++ "</system>" ++ "Hi") = true /\
  contains "</system>" "<system>Be brief." = false /\
  injectRecallContext ("<system>Be brief." ++ "</system>" ++ "Hi") (mkRecallParts "" "" "" "cost: $&")
  = "<system>Be brief." ++ "</system>" ++ nl ++ nl ++ recall_injection ["cost: </system>"] ++ "Hi".
Proof.
  split; [discriminate|]. split; [reflexivity|]. split; [reflexivity|].
  rewrite (injectRecallContext_after_system "<system>Be brief." "Hi"
             (mkRecallParts "" "" "" "cost: $&") ltac:(discriminate) eq_refl eq_refl).
  reflexivity.
Defined.

(** When none of the four parts contains a ["$"], the prompt
    [pre + "</system>" + post] (with no earlier ["</system>"]) becomes
    [pre + "</system>\n\n" + injection + post]. *)
Theorem injectRecallContext_after_system_plain (pre post : string) (ctx : RecallParts) :
  injectionParts ctx <> [] ->
  contains "<system>" (pre ++ "</system>" ++ post) = true ->
  contains "</system>" pre = false ->
  contains "$" (currentState ctx) = false ->
  contains "$" (graphContext ctx) = false ->
  contains "$" (recentUpdates ctx) = false ->
  contains "$" (semanticMemories ctx) = false ->
  injectRecallContext (pre ++ "</system>" ++ post) ctx
  = pre ++ "</system>" ++ nl ++ nl ++ recall_injection (injectionParts ctx) ++ post.
Proof.
  intros Hne Hs Hpre H1 H2 H3 H4. unfold injectRecallContext.
  pose proof (injectionParts_Forall (fun s => contains "$" s = false) ctx H1 H2 H3 H4) as Hall.
  destruct (injectionParts ctx) as [|q qs]; [contradiction|].
  rewrite Hs. unfold js_replace.
  rewrite (split_first_app "<"%char "/system>" pre post eq_refl Hpre).
  rewrite get_substitution_plain; [reflexivity|].
  unfold recall_injection. rewrite !contains_char_app.
  rewrite (contains_char_concat "$"%char (nl ++ nl) (q :: qs) eq_refl Hall).
  reflexivity.
Qed.

Lemma injectRecallContext_after_system_plain_witness :
  injectionParts (mkRecallParts "<current-state/>" "" "" "") <> [] /\
  injectRecallContext ("<system>Be brief." ++ "</system>" ++ "Hi")
    (mkRecallParts "<current-state/>" "" "" "")
  = "<system>Be brief." ++ "</system>" ++ nl ++ nl ++ recall_injection ["<current-state/>"] ++ "Hi".
Proof.
  split; [discriminate|].
  exact (injectRecallContext_after_system_plain "<system>Be brief." "Hi"
           (mkRecallParts "<current-state/>" "" "" "") ltac:(discriminate)
           eq_refl eq_refl eq_refl eq_refl eq_refl eq_refl).
Defined.

End RecallPromptTheorems.

(* ------------------------------------------------------------------------ *)
(** ** Facts about the budget loop *)

Module BudgetExtraFacts.
  Import Capture Budget BudgetFacts.
  Local Open Scope Z_scope.

  (** The loop takes a prefix of the newest-first list; it is the whole list
      or the next message would go over the budget. *)
Lemma accumulate_stop cfg rs sel tc :
    exists p,
      fst (accumulate cfg rs sel tc) = (rev p ++ sel)%list /\
      (p = rs \/
       exists m rest, rs = (p ++ m :: rest)%list /\
         tc + total_tokens cfg p + msgTokens cfg m > maxConversationTokens cfg).
  Proof.
    revert sel tc. induction rs as [|m rs IH]; intros sel tc.
    - exists []. split; [reflexivity|left; reflexivity].
    - cbn [accumulate]. destruct (tc + msgTokens cfg m >? maxConversationTokens cfg) eqn:E.
      + exists []. split; [reflexivity|right].
        exists m, rs. split; [reflexivity|]. rewrite Z.gtb_ltb, Z.ltb_lt in E. simpl. lia.
      + destruct (IH (m :: sel) (tc + msgTokens cfg m)) as (p & Hp & Hc).
        exists (m :: p). split.
        * rewrite Hp. cbn [rev]. rewrite <- app_assoc. reflexivity.
        * destruct Hc as [->|(m2 & rest & Hr & Ht)]; [left; reflexivity|right].
          exists m2, rest. split; [rewrite Hr; reflexivity|].
          cbn [total_tokens fold_right]. fold (total_tokens cfg p). lia.
  Qed.
End BudgetExtraFacts.

Section BudgetExtraTheorems.
  Import Capture Budget BudgetFacts BudgetExtraFacts.
  Import Samples.
  Local Open Scope Z_scope.

  (** The selection is greedy: unless the message cap was reached, the
      conversation message just before the selection would have taken the
      estimated token sum over [maxConversationTokens]. *)
Theorem selectMessagesWithinBudget_maximal (messages : Datatypes.list ConversationMessage)
    (config : ContextWindowConfig) (older : Datatypes.list ConversationMessage)
    (m : ConversationMessage) :
    let selected := fst (selectMessagesWithinBudget messages config) in
    filter is_conversation messages = (older ++ m :: selected)%list ->
    Z.of_nat (length selected) < absoluteMaxMessages config ->
    total_tokens config (m :: selected) > maxConversationTokens config.
  Proof.
    cbv zeta. intros Hf Hlt. revert Hf Hlt. unfold selectMessagesWithinBudget.
    set (filtered := filter is_conversation messages).
    set (capped := if Z.of_nat (length filtered) >? absoluteMaxMessages config
                   then slice filtered (- absoluteMaxMessages config) else filtered).
    intros Hf Hlt.
    destruct (accumulate_stop config (rev capped) [] 0) as (p & Hp & Hc).
    rewrite app_nil_r in Hp. rewrite Hp in Hf, Hlt |- *.
    destruct Hc as [Hp2|(m2 & rest & Hr & Ht)].
    - exfalso. rewrite Hp2, rev_involutive in Hf, Hlt.
      unfold capped in Hf, Hlt. destruct (_ >? _) eqn:E.
      + rewrite Z.gtb_ltb, Z.ltb_lt in E.
        rewrite slice_neg_length in Hlt; lia.
      + apply (f_equal (@length _)) in Hf.
        rewrite length_app in Hf. cbn [length] in Hf. lia.
    - assert (Hcap : capped = (rev rest ++ m2 :: rev p)%list).
      { rewrite <- (rev_involutive capped), Hr, rev_app_distr. cbn [rev].
        rewrite <- app_assoc. reflexivity. }
      destruct (slice_suffix filtered (- absoluteMaxMessages config)) as [q Hq].
      assert (Hsuf : exists q', filtered = (q' ++ capped)%list).
      { unfold capped. destruct (_ >? _); [exists q; exact Hq|exists []; reflexivity]. }
      destruct Hsuf as [q' Hq'].
      rewrite Hq', Hcap in Hf.
      replace ((q' ++ rev rest ++ m2 :: rev p))%list
        with (((q' ++ rev rest) ++ [m2]) ++ rev p)%list in Hf
        by (rewrite <- !app_assoc; reflexivity).
      replace ((older ++ m :: rev p))%list with ((older ++ [m]) ++ rev p)%list in Hf
        by (rewrite <- app_assoc; reflexivity).
      apply app_inv_tail in Hf. apply app_inj_tail in Hf as [_ <-].
      cbn [total_tokens fold_right]. fold (total_tokens config (rev p)).
      rewrite total_tokens_rev. lia.
  Qed.

Lemma selectMessagesWithinBudget_maximal_witness :
    let config := mkContextWindowConfig 6 4 200 in
    let selected := fst (selectMessagesWithinBudget sample_messages config) in
    filter is_conversation sample_messages
      = ([] ++ mkConversationMessage "user" (JStr "hello") :: selected)%list /\
    Z.of_nat (length selected) < absoluteMaxMessages config /\
    total_tokens config (mkConversationMessage "user" (JStr "hello") :: selected)
      > maxConversationTokens config.
  Proof.
    cbv zeta. split; [reflexivity|]. split; [reflexivity|].
    apply (selectMessagesWithinBudget_maximal sample_messages (mkContextWindowConfig 6 4 200) []);
      reflexivity.
  Defined.
End BudgetExtraTheorems.

(* ------------------------------------------------------------------------ *)
(** ** Facts about the extraction prompt filter and the session scope *)

Module ExtractorPromptFacts.
Import SlotDB Capture ExtractorPrompt.

Lemma obj_set_fresh {V} (o : Datatypes.list (string * V)) k v :
  ~ In k (map fst o) -> obj_set o k v = (o ++ [(k, v)])%list.
Proof.
  induction o as [|[k' v'] o IH]; intros Hn; [reflexivity|].
  cbn [obj_set]. simpl in Hn.
  destruct (String.eqb_spec k k') as [->|]; [tauto|].
  rewrite IH by tauto. reflexivity.
Qed.

Lemma map_fst_nodup_mid {V} (acc l : Datatypes.list (string * V)) k v :
  NoDup (map fst (acc ++ (k, v) :: l)) ->
  ~ In k (map fst acc) /\ NoDup (map fst (acc ++ l)) /\
  forall v' : V, NoDup (map fst ((acc ++ [(k, v')]) ++ l)).
Proof.
  rewrite !map_app. cbn [map fst]. intros H. split; [|split].
  - intros Hin. apply (NoDup_remove_2 _ _ _ H). apply in_or_app. left. exact Hin.
  - exact (NoDup_remove_1 _ _ _ H).
  - intros v'. rewrite !map_app. cbn [map fst]. rewrite <- app_assoc. exact H.
Qed.

Lemma filtered_fold (l acc : Datatypes.list (string * json)) :
  NoDup (map fst (acc ++ l)) ->
  fold_left (fun filtered kv =>
               let '(key, value) := kv in
               if starts_with "_autocapture" key then filtered
               else obj_set filtered key value) l acc
  = (acc ++ filter (fun kv => negb (starts_with "_autocapture" (fst kv))) l)%list.
Proof.
  revert acc. induction l as [|[k v] l IH]; intros acc Hn.
  - rewrite app_nil_r. reflexivity.
  - apply map_fst_nodup_mid in Hn as (Hk & H1 & H2).
    cbn [fold_left filter fst].
    destruct (starts_with "_autocapture" k); cbn [negb].
    + apply IH, H1.
    + rewrite obj_set_fresh by exact Hk. rewrite IH by apply H2.
      rewrite <- app_assoc. reflexivity.
Qed.

Lemma filteredSlots_fold (cs acc : Datatypes.list (string * Datatypes.list (string * json))) :
  NoDup (map fst (acc ++ cs)) ->
  Forall (fun p => NoDup (map fst (snd p))) cs ->
  fold_left (fun filteredSlots cs =>
               let '(cat, slots) := cs in
               let filtered :=
                 fold_left (fun filtered kv =>
                              let '(key, value) := kv in
                              if starts_with "_autocapture" key then filtered
                              else obj_set filtered key value)
                           slots [] in
               if (0 <? length filtered)%nat then obj_set filteredSlots cat filtered
               else filteredSlots)
            cs acc
  = (acc ++ filter (fun p => (0 <? length (snd p))%nat)
                   (map (fun p => (fst p, filter (fun kv => negb (starts_with "_autocapture" (fst kv)))
                                                 (snd p))) cs))%list.
Proof.
  revert acc. induction cs as [|[c slots] cs IH]; intros acc Hn Hf.
  - rewrite app_nil_r. reflexivity.
  - inversion Hf as [|x y Hs Hf']; subst. cbn [snd] in Hs.
    apply map_fst_nodup_mid in Hn as (Hk & H1 & H2).
    cbn [fold_left map filter fst snd].
    rewrite (filtered_fold slots []) by exact Hs. cbn [app].
    destruct (0 <? length (filter (fun kv => negb (starts_with "_autocapture" (fst kv))) slots))%nat.
    + rewrite obj_set_fresh by exact Hk. rewrite IH; [|apply H2|exact Hf'].
      rewrite <- app_assoc. reflexivity.
    + apply IH; assumption.
Qed.

End ExtractorPromptFacts.

Module SessionScopeFacts.
Import Capture SessionScope.

Lemma split_colon_free (x r : string) :
  contains ":" x = false -> split_colon (x ++ String ":" r) = x :: split_colon r.
Proof.
  induction x as [|c x IH]; intros H; [reflexivity|].
  simpl in H. apply orb_false_iff in H as [H1 H2].
  cbn [append split_colon]. rewrite (IH H2).
  replace (Ascii.eqb c ":"%char) with false; [reflexivity|].
  destruct (Ascii.eqb_spec c ":"%char) as [->|]; [|reflexivity].
  simpl in H1. rewrite RecallPromptFacts.prefix_empty in H1. discriminate.
Qed.

Lemma concat_cons_char (sep : string) (c : ascii) (p : string) (ps : Datatypes.list string) :
  String.concat sep (String c p :: ps) = String c (String.concat sep (p :: ps)).
Proof. destruct ps; reflexivity. Qed.

Lemma split_colon_nonempty (s : string) : split_colon s <> [].
Proof.
  induction s as [|c s IH]; [discriminate|]. cbn [split_colon].
  destruct (Ascii.eqb c ":"%char); [discriminate|].
  destruct (split_colon s); discriminate.
Qed.

(** [s.split(":").join(":")] is [s]. *)
Lemma concat_split_colon (s : string) : String.concat ":" (split_colon s) = s.
Proof.
  induction s as [|c s IH]; [reflexivity|]. cbn [split_colon].
  destruct (Ascii.eqb_spec c ":"%char) as [->|].
  - pose proof (split_colon_nonempty s) as Hn.
    destruct (split_colon s) as [|p ps] eqn:E; [contradiction|].
    change (String.concat ":" ("" :: p :: ps)) with ("" ++ ":" ++ String.concat ":" (p :: ps)).
    rewrite IH. reflexivity.
  - destruct (split_colon s) as [|p ps] eqn:E.
    + simpl in IH. subst s. reflexivity.
    + rewrite concat_cons_char, IH. reflexivity.
Qed.

End SessionScopeFacts.

Section ExtraPromptScopeTheorems.
Import SlotDB Capture ExtractorPrompt ExtractorPromptFacts SessionScope SessionScopeFacts.

(** [buildUserPrompt] shows the extractor the current slots without the
    keys that start with ["_autocapture"] and without the categories that
    only had such keys, everything else in its order (for objects, whose
    keys are distinct). *)
Theorem filteredSlots_spec (currentSlots : Datatypes.list (string * Datatypes.list (string * json))) :
  NoDup (map fst currentSlots) ->
  Forall (fun p => NoDup (map fst (snd p))) currentSlots ->
  filteredSlots currentSlots
  = filter (fun p => (0 <? length (snd p))%nat)
           (map (fun p => (fst p, filter (fun kv => negb (starts_with "_autocapture" (fst kv)))
                                         (snd p))) currentSlots).
Proof.
  intros Hn Hf. exact (filteredSlots_fold currentSlots [] Hn Hf).
Qed.

Lemma filteredSlots_spec_witness :
  let cs := [("profile", [("name", JStr "Ann"); ("_autocapture_hash", JStr "h1")]);
             ("meta", [("_autocapture_hash", JStr "h2")])] in
  NoDup (map fst cs) /\ Forall (fun p => NoDup (map fst (snd p))) cs /\
  filteredSlots cs = [("profile", [("name", JStr "Ann")])].
Proof.
  cbv zeta.
  assert (H1 : NoDup (map fst [("profile", [("name", JStr "Ann"); ("_autocapture_hash", JStr "h1")]);
                               ("meta", [("_autocapture_hash", JStr "h2")])])).
  { cbn [map fst]. constructor; [intros [H|[]]; discriminate|].
    constructor; [intros []|constructor]. }
  assert (H2 : Forall (fun p => NoDup (map fst (snd p)))
                 [("profile", [("name", JStr "Ann"); ("_autocapture_hash", JStr "h1")]);
                  ("meta", [("_autocapture_hash", JStr "h2")])]).
  { constructor; [|constructor; [|constructor]]; cbn [map fst snd].
    - constructor; [intros [H|[]]; discriminate|]. constructor; [intros []|constructor].
    - constructor; [intros []|constructor]. }
  split; [exact H1|]. split; [exact H2|].
  rewrite (filteredSlots_spec _ H1 H2). reflexivity.
Defined.

(** For a session key [prefix:agent:user] whose first two segments have no
    colon, the slot tools take [user] (colons included) as the user and
    [agent] as the agent of the private scope, and [user] with the
    ["__team__"] agent for the team scope. *)
Theorem extractScope_roundtrip (prefix agent user : string) :
  contains ":" prefix = false -> contains ":" agent = false ->
  extractScope (prefix ++ ":" ++ agent ++ ":" ++ user) None = mkScope user agent /\
  extractScope (prefix ++ ":" ++ agent ++ ":" ++ user) (Some "private") = mkScope user agent /\
  extractScope (prefix ++ ":" ++ agent ++ ":" ++ user) (Some "team") = mkScope user "__team__".
Proof.
  intros Hp Ha. unfold extractScope.
  change (prefix ++ ":" ++ agent ++ ":" ++ user)
    with (prefix ++ String ":" (agent ++ String ":" user)).
  rewrite (split_colon_free _ _ Hp), (split_colon_free _ _ Ha).
  pose proof (split_colon_nonempty user) as Hn. pose proof (concat_split_colon user) as Hc.
  destruct (split_colon user) as [|p ps]; [contradiction|].
  cbn [length skipn nth]. rewrite Hc. repeat split.
Qed.

Lemma extractScope_roundtrip_witness :
  contains ":" "agent" = false /\ contains ":" "main" = false /\
  extractScope ("agent" ++ ":" ++ "main" ++ ":" ++ "telegram:42") None = mkScope "telegram:42" "main".
Proof.
  split; [reflexivity|]. split; [reflexivity|].
  exact (proj1 (extractScope_roundtrip "agent" "main" "telegram:42" eq_refl eq_refl)).
Defined.

(** A session key with fewer than three segments gets the user
    ["default"], and with a single segment also the agent ["main"]. *)
Theorem extractScope_short_key (prefix agent : string) :
  contains ":" prefix = false -> contains ":" agent = false ->
  extractScope prefix None = mkScope "default" "main" /\
  extractScope (prefix ++ ":" ++ agent) None = mkScope "default" agent.
Proof.
  intros Hp Ha. unfold extractScope. split.
  - replace (split_colon prefix) with [prefix]; [reflexivity|].
    induction prefix as [|c x IH]; [reflexivity|].
    simpl in Hp. apply orb_false_iff in Hp as [H1 H2].
    cbn [split_colon]. rewrite <- (IH H2).
    replace (Ascii.eqb c ":"%char) with false; [reflexivity|].
    destruct (Ascii.eqb_spec c ":"%char) as [->|]; [|reflexivity].
    simpl in H1. rewrite RecallPromptFacts.prefix_empty in H1. discriminate.
  - change (prefix ++ ":" ++ agent) with (prefix ++ String ":" agent).
    rewrite (split_colon_free _ _ Hp).
    replace (split_colon agent) with [agent]; [reflexivity|].
    clear Hp. induction agent as [|c x IH]; [reflexivity|].
    simpl in Ha. apply orb_false_iff in Ha as [H1 H2].
    cbn [split_colon]. rewrite <- (IH H2).
    replace (Ascii.eqb c ":"%char) with false; [reflexivity|].
    destruct (Ascii.eqb_spec c ":"%char) as [->|]; [|reflexivity].
    simpl in H1. rewrite RecallPromptFacts.prefix_empty in H1. discriminate.
Qed.

Lemma extractScope_short_key_witness :
  contains ":" "agent" = false /\ contains ":" "ops" = false /\
  extractScope ("agent" ++ ":" ++ "ops") None = mkScope "default" "ops".
Proof.
  split; [reflexivity|]. split; [reflexivity|].
  exact (proj2 (extractScope_short_key "agent" "ops" eq_refl eq_refl)).
Defined.

(** The [memory_auto_capture] tool reads the same scope from a session key
    as the slot tools, except that an empty user becomes ["default"] and an
    empty agent becomes ["main"]. *)
Theorem autoCaptureScope_vs_extractScope (sessionKey : string) :
  autoCaptureScope sessionKey
  = let sc := extractScope sessionKey None in
    mkScope (if String.eqb (userId sc) "" then "default" else userId sc)
            (if String.eqb (agentId sc) "" then "main" else agentId sc).
Proof.
  unfold autoCaptureScope, extractScope.
  destruct (split_colon sessionKey) as [|p0 [|p1 [|p2 ps]]]; reflexivity.
Qed.

End ExtraPromptScopeTheorems.
